(** * Mute: a shallow embedding of [mute.cpp]

    The program walks the active audio render endpoints of the host and
    mutes (or, with [-unmute], unmutes) each of them.  Everything it does
    is a call into the host audio subsystem or a write to one of the two
    standard streams, so the embedding is a state monad over a [World]
    holding the two process globals, the host with its endpoints, and the
    trace of calls and writes performed so far.  A computation yields no
    value when the process dies in it. *)

From Stdlib Require Import ZArith String Ascii List Bool Lia DecimalString.
From stdpp Require Import base list sorting.
Import ListNotations.

Local Open Scope string_scope.
Local Open Scope list_scope.

(** ** Types *)

(** [struct Options] *)
Record Options := { silent : bool; unmute : bool }.

Inductive Stream := stdout | stderr.

(** The COM smart pointers of the source.  A pointer is modelled by the
    position, in the host's collection, of the endpoint it is bound to. *)
Inductive IMMDevicePtr := DevicePtr (endpoint : nat).
Inductive IPropertyStorePtr := PropertyStorePtr (endpoint : nat).
Inductive IAudioSessionManager2Ptr := SessionManagerPtr (endpoint : nat).
Inductive IAudioSessionControlPtr := SessionControlPtr (endpoint : nat).
Inductive IAudioEndpointVolumePtr := EndpointVolumePtr (endpoint : nat).

(** One active render endpoint of the host: for each call the program makes
    on it, whether that call succeeds, and the mute flag itself.
    [friendly_name] is the [pwszVal] that a successful [GetValue] stores
    for [PKEY_Device_FriendlyName]: [None] is the null pointer of an empty
    [PROPVARIANT], which [GetValue] returns, with success, for a key the
    store does not hold. *)
Record Endpoint := {
  item_ok : bool;
  property_store_ok : bool;
  get_value_ok : bool;
  friendly_name : option string;
  session_manager_ok : bool;
  session_control_ok : bool;
  endpoint_volume_ok : bool;
  get_mute_ok : bool;
  set_mute_ok : bool;
  muted : bool
}.

(** The host outside the endpoints.  [missing_vararg] is the integer that
    [vfwprintf] picks up for the [%d] of the device-name diagnostic, whose
    call passes no argument for it. *)
Record Host := {
  com_ok : bool;
  enumerator_ok : bool;
  enum_ok : bool;
  count_ok : bool;
  missing_vararg : Z
}.

(** What a run does that can be seen from outside, in order.  A [GetValue]
    that failed is [EvGetValue _ None], one that stored a name is
    [EvGetValue _ (Some name)], and one that succeeded with an empty value
    is [EvGetValueEmpty]. *)
Inductive Event :=
| EvCoInitializeEx (ok : bool)
| EvCoUninitialize
| EvCreateInstance (ok : bool)
| EvEnumAudioEndpoints (ok : bool)
| EvGetCount (count : option nat)
| EvItem (i : nat) (ok : bool)
| EvOpenPropertyStore (device : nat) (ok : bool)
| EvGetValue (store : nat) (name : option string)
| EvGetValueEmpty (store : nat)
| EvActivateSessionManager (device : nat) (ok : bool)
| EvGetAudioSessionControl (manager : nat) (ok : bool)
| EvActivateEndpointVolume (device : nat) (ok : bool)
| EvGetMute (ev : nat) (isMuted : option bool)
| EvSetMute (ev : nat) (flag : bool) (ok : bool)
| EvOut (s : Stream) (text : string).

(** ** Globals and the world *)

Record World := {
  opts_ : Options;
  programName_ : string;
  host : Host;
  endpoints : list Endpoint;
  trace : list Event
}.

(** A computation in a world: the value it returns, or [None] when the
    process died in it, and the world it leaves. *)
Definition M (A : Type) : Type := World -> option A * World.

#[global] Instance M_ret : MRet M := fun A a w => (Some a, w).
#[global] Instance M_bind : MBind M :=
  fun A B k m w =>
    match m w with
    | (Some a, w') => k a w'
    | (None, w') => (None, w')
    end.

(** The process dies here. *)
Definition die {A : Type} : M A := fun w => (None, w).

Definition emit (e : Event) : M unit := fun w =>
  (Some tt, {| opts_ := opts_ w; programName_ := programName_ w; host := host w;
          endpoints := endpoints w; trace := trace w ++ [e] |}).

Definition get_opts : M Options := fun w => (Some (opts_ w), w).

Definition set_opts (o : Options) : M unit := fun w =>
  (Some tt, {| opts_ := o; programName_ := programName_ w; host := host w;
          endpoints := endpoints w; trace := trace w |}).

Definition get_programName : M string :=
  fun w => (Some (programName_ w), w).

Definition set_programName (s : string) : M unit := fun w =>
  (Some tt, {| opts_ := opts_ w; programName_ := s; host := host w;
          endpoints := endpoints w; trace := trace w |}).

Definition get_host : M Host := fun w => (Some (host w), w).

Definition get_endpoint (i : nat) : M (option Endpoint) :=
  fun w => (Some (endpoints w !! i), w).

Definition set_endpoint (i : nat) (e : Endpoint) : M unit := fun w =>
  (Some tt, {| opts_ := opts_ w; programName_ := programName_ w; host := host w;
          endpoints := <[i := e]> (endpoints w); trace := trace w |}).

(** ** Characters and C strings *)

Definition nl : string := String (ascii_of_nat 10) "".
Definition tab : string := String (ascii_of_nat 9) "".
Definition dquote : string := String (ascii_of_nat 34) "".
Definition backslash : ascii := ascii_of_nat 92.

Definition tolower (c : ascii) : ascii :=
  let n := nat_of_ascii c in
  if (65 <=? n)%nat && (n <=? 90)%nat then ascii_of_nat (n + 32) else c.

Fixpoint strlwr (s : string) : string :=
  match s with
  | EmptyString => EmptyString
  | String c s' => String (tolower c) (strlwr s')
  end.

(** [strcmp]: zero exactly when the two strings are the same (the strings
    of [argv] hold no NUL character). *)
Fixpoint strcmp (a b : string) : Z :=
  match a, b with
  | EmptyString, EmptyString => 0
  | EmptyString, String d _ => - Z.of_nat (nat_of_ascii d)
  | String c _, EmptyString => Z.of_nat (nat_of_ascii c)
  | String c a', String d b' =>
      if Ascii.eqb c d then strcmp a' b'
      else Z.of_nat (nat_of_ascii c) - Z.of_nat (nat_of_ascii d)
  end%Z.

Definition _strcmpi (a b : string) : Z := strcmp (strlwr a) (strlwr b).

(** [strrchr s c]: the suffix of [s] that starts at the last [c]. *)
Fixpoint strrchr (s : string) (c : ascii) : option string :=
  match s with
  | EmptyString => None
  | String a s' =>
      match strrchr s' c with
      | Some t => Some t
      | None => if Ascii.eqb a c then Some s else None
      end
  end.

(** [%d]: a 32-bit signed integer in decimal. *)
Definition int32 (z : Z) : Z := ((z + 2 ^ 31) mod 2 ^ 32 - 2 ^ 31)%Z.
Definition fmt_d (z : Z) : string := NilZero.string_of_int (Z.to_int (int32 z)).

(** ** The host audio subsystem

    Each call records itself in the trace with its outcome.  A call on a
    position the collection does not have fails. *)

Definition endpoint_says (i : nat) (f : Endpoint -> bool) : M bool :=
  e ← get_endpoint i; mret (from_option f false e).

Definition CoInitializeEx : M bool :=
  h ← get_host; emit (EvCoInitializeEx (com_ok h));; mret (com_ok h).

Definition CoUninitialize : M unit := emit EvCoUninitialize.

Definition CreateInstance : M bool :=
  h ← get_host; emit (EvCreateInstance (enumerator_ok h));;
  mret (enumerator_ok h).

Definition EnumAudioEndpoints : M bool :=
  h ← get_host; emit (EvEnumAudioEndpoints (enum_ok h));; mret (enum_ok h).

Definition GetCount : M (option nat) :=
  h ← get_host;
  n ← (fun w => (Some (length (endpoints w)), w));
  let r := if count_ok h then Some n else None in
  emit (EvGetCount r);; mret r.

Definition Item (i : nat) : M (option IMMDevicePtr) :=
  ok ← endpoint_says i item_ok;
  emit (EvItem i ok);;
  mret (if ok : bool then Some (DevicePtr i) else None).

Definition OpenPropertyStore (device : IMMDevicePtr)
  : M (option IPropertyStorePtr) :=
  let 'DevicePtr i := device in
  ok ← endpoint_says i property_store_ok;
  emit (EvOpenPropertyStore i ok);;
  mret (if ok : bool then Some (PropertyStorePtr i) else None).

(** [GetValue]: [None] when the call fails, and otherwise the [pwszVal] of
    the value it stored, which is null for an empty value. *)
Definition GetValue (propStore : IPropertyStorePtr)
  : M (option (option string)) :=
  let 'PropertyStorePtr i := propStore in
  e ← get_endpoint i;
  match e with
  | Some e =>
      if get_value_ok e then
        match friendly_name e with
        | Some name => emit (EvGetValue i (Some name));; mret (Some (Some name))
        | None => emit (EvGetValueEmpty i);; mret (Some None)
        end
      else emit (EvGetValue i None);; mret None
  | None => emit (EvGetValue i None);; mret None
  end.

Definition ActivateSessionManager (device : IMMDevicePtr)
  : M (option IAudioSessionManager2Ptr) :=
  let 'DevicePtr i := device in
  ok ← endpoint_says i session_manager_ok;
  emit (EvActivateSessionManager i ok);;
  mret (if ok : bool then Some (SessionManagerPtr i) else None).

Definition GetAudioSessionControl (sessionManager2 : IAudioSessionManager2Ptr)
  : M (option IAudioSessionControlPtr) :=
  let 'SessionManagerPtr i := sessionManager2 in
  ok ← endpoint_says i session_control_ok;
  emit (EvGetAudioSessionControl i ok);;
  mret (if ok : bool then Some (SessionControlPtr i) else None).

Definition ActivateEndpointVolume (device : IMMDevicePtr)
  : M (option IAudioEndpointVolumePtr) :=
  let 'DevicePtr i := device in
  ok ← endpoint_says i endpoint_volume_ok;
  emit (EvActivateEndpointVolume i ok);;
  mret (if ok : bool then Some (EndpointVolumePtr i) else None).

Definition GetMute (ev : IAudioEndpointVolumePtr) : M (option bool) :=
  let 'EndpointVolumePtr i := ev in
  e ← get_endpoint i;
  let r := e ≫= (fun e => if get_mute_ok e then Some (muted e) else None) in
  emit (EvGetMute i r);; mret r.

Definition with_muted (flag : bool) (e : Endpoint) : Endpoint :=
  {| item_ok := item_ok e; property_store_ok := property_store_ok e;
     get_value_ok := get_value_ok e;
     friendly_name := friendly_name e;
     session_manager_ok := session_manager_ok e;
     session_control_ok := session_control_ok e;
     endpoint_volume_ok := endpoint_volume_ok e;
     get_mute_ok := get_mute_ok e; set_mute_ok := set_mute_ok e;
     muted := flag |}.

(** A successful [SetMute] stores the flag; a failed one changes nothing. *)
Definition SetMute (ev : IAudioEndpointVolumePtr) (flag : bool) : M bool :=
  let 'EndpointVolumePtr i := ev in
  e ← get_endpoint i;
  match e with
  | Some e =>
      if set_mute_ok e
      then set_endpoint i (with_muted flag e);;
           emit (EvSetMute i flag true);; mret true
      else emit (EvSetMute i flag false);; mret false
  | None => emit (EvSetMute i flag false);; mret false
  end.

(** ** Output *)

Definition PrintError (msg : string) : M unit :=
  o ← get_opts;
  if silent o then mret tt
  else
    emit (EvOut stdout "! ");;
    emit (EvOut stderr msg);;
    emit (EvOut stderr nl).

Definition Print (msg : string) : M unit :=
  o ← get_opts;
  if silent o then mret tt
  else
    emit (EvOut stdout msg);;
    emit (EvOut stdout nl).

(** ** Mute *)

Definition quoted (s : string) : string := dquote ++ s ++ dquote.

Definition MuteEndpoint (ev : IAudioEndpointVolumePtr) (deviceName : string)
  : M unit :=
  hr ← GetMute ev;
  match hr with
  | None =>
      PrintError ("Failed to get mute status for device " ++ quoted deviceName)
  | Some isMuted =>
      o ← get_opts;
      if unmute o && negb isMuted then
        Print ("> " ++ deviceName ++ " is already unmuted.")
      else if negb (unmute o) && isMuted then
        Print ("> " ++ deviceName ++ " is already muted.")
      else
        hr ← SetMute ev (negb (unmute o));
        if negb hr : bool then
          PrintError
            ("Failed to set mute status for device " ++ quoted deviceName)
        else
          Print ("> " ++ deviceName ++ " is now "
                 ++ (if unmute o then "un" else "") ++ "muted")
  end.

(** The body of the [for] loop of [Mute], at index [i]; every [continue]
    of the source ends the body.  The source tests only the result of
    [GetValue] before it builds [deviceName] from [value.pwszVal]: from a
    null pointer that is no string, and the process dies there. *)
Definition Mute_body (i : nat) : M unit :=
  device ← Item i;
  match device with
  | None => PrintError ("Failed to get audio endpoint #" ++ fmt_d (Z.of_nat i))
  | Some device =>
  propStore ← OpenPropertyStore device;
  match propStore with
  | None =>
      PrintError ("Failed to open property store for audio endpoint #"
                  ++ fmt_d (Z.of_nat i))
  | Some propStore =>
  value ← GetValue propStore;
  match value with
  | None =>
      h ← get_host;
      PrintError ("Failed to get device name for audio endpoint #"
                  ++ fmt_d (missing_vararg h))
  | Some None => die
  | Some (Some deviceName) =>
  Print ("Found audio endpoint " ++ quoted deviceName);;
  sessionManager2 ← ActivateSessionManager device;
  match sessionManager2 with
  | None =>
      PrintError ("Failed to retrieve audio session manager for "
                  ++ quoted deviceName)
  | Some sessionManager2 =>
  sessionCtrl ← GetAudioSessionControl sessionManager2;
  match sessionCtrl with
  | None =>
      PrintError ("Failed to retrieve audio session manager for "
                  ++ quoted deviceName)
  | Some _ =>
  endpointVolume ← ActivateEndpointVolume device;
  match endpointVolume with
  | None =>
      PrintError ("Failed to active endpoint volume for device "
                  ++ quoted deviceName)
  | Some endpointVolume =>
      MuteEndpoint endpointVolume deviceName;;
      emit (EvOut stdout nl)
  end end end end end end.

(** [for (UINT i = 0; i < epCount; ++i)]: [n] iterations are left and the
    next index is [i]. *)
Fixpoint Mute_loop (n i : nat) : M unit :=
  match n with
  | O => mret tt
  | S n' => Mute_body i;; Mute_loop n' (S i)
  end.

Definition Mute : M bool :=
  ok ← CreateInstance;
  if negb ok : bool then
    PrintError "Failed to create instance of MMDeviceEnumerator";; mret false
  else
    hr ← EnumAudioEndpoints;
    if negb hr : bool then
      PrintError "Failed to enumerate all audio endpoints";; mret false
    else
      hr ← GetCount;
      match hr with
      | None => PrintError "Failed to get endpoint count";; mret false
      | Some epCount => Mute_loop epCount 0;; mret true
      end.

(** ** Main and command line *)

Definition EXIT_SUCCESS : Z := 0.
Definition EXIT_FAILURE : Z := 1.

Definition usage_text (programName : string) : string :=
  programName ++ " <options>" ++ nl ++
  "Options:" ++ nl ++
  tab ++ "-help" ++ tab ++ "Display this screen and exits" ++ nl ++
  tab ++ "-silent" ++ tab ++ "Don't print any output" ++ nl ++
  tab ++ "-unmute" ++ tab ++ "instead of muting, do the opposite" ++ nl.

Definition PrintUsage : M unit :=
  p ← get_programName; emit (EvOut stdout (usage_text p)).

Definition DisplayUsage (argc : nat) (argv : list string) : bool :=
  (argc =? 2)%nat &&
  match argv !! 1%nat with
  | Some a => (_strcmpi a "-help" =? 0)%Z || (strcmp a "-?" =? 0)%Z
  | None => false
  end.

(** [for (int i = 1; i < argc; ++i)] over [argv[i]]: [rest] holds the
    arguments still to be read. *)
Fixpoint ParseCommandLine_loop (rest : list string) : M bool :=
  match rest with
  | [] => mret true
  | a :: rest' =>
      if (_strcmpi a "-silent" =? 0)%Z then
        o ← get_opts;
        set_opts {| silent := true; unmute := unmute o |};;
        ParseCommandLine_loop rest'
      else if (_strcmpi a "-unmute" =? 0)%Z then
        o ← get_opts;
        set_opts {| silent := silent o; unmute := true |};;
        ParseCommandLine_loop rest'
      else mret false
  end.

Definition ParseCommandLine (argc : nat) (argv : list string) : M bool :=
  ParseCommandLine_loop (drop 1 (take argc argv)).

Definition Init (argc : nat) (argv : list string) : M bool :=
  let argv0 := default "" (argv !! 0%nat) in
  set_programName
    match strrchr argv0 backslash with
    | Some (String _ after) => after
    | _ => argv0
    end;;
  ok ← CoInitializeEx;
  if negb ok : bool then PrintError "Failed to initialize COM library";; mret false
  else mret true.

Definition Shutdown : M unit := CoUninitialize.

(** [main]: [argv] is [argv0 :: args], so [argv[0]] exists.  The [||] of
    the source does not parse the command line once [DisplayUsage] holds. *)
Definition main (argv0 : string) (args : list string) : M Z :=
  let argv := argv0 :: args in
  let argc := length argv in
  let rc := EXIT_FAILURE in
  ok ← Init argc argv;
  if ok : bool then
    rc ← (if DisplayUsage argc argv then PrintUsage;; mret rc
          else
            parsed ← ParseCommandLine argc argv;
            if negb parsed : bool then PrintUsage;; mret rc
            else
              done ← Mute;
              mret (if done : bool then EXIT_SUCCESS else rc));
    Shutdown;;
    mret rc
  else mret rc.

(** The world a process starts in: both globals zero-initialised (the null
    [programName_] is read by nothing before [Init] sets it). *)
Definition boot (h : Host) (eps : list Endpoint) : World :=
  {| opts_ := {| silent := false; unmute := false |};
     programName_ := "";
     host := h; endpoints := eps; trace := [] |}.

(** A run of the program: what [main] returns, or [None] when the process
    died, and the world it leaves. *)
Definition run (h : Host) (eps : list Endpoint)
    (argv0 : string) (args : list string) : option Z * World :=
  main argv0 args (boot h eps).

(** ** Observations on a trace *)

(** Everything written to stream [s], in order. *)
Fixpoint written (s : Stream) (tr : list Event) : string :=
  match tr with
  | [] => ""
  | EvOut stdout text :: tr' =>
      match s with stdout => text ++ written s tr' | stderr => written s tr' end
  | EvOut stderr text :: tr' =>
      match s with stderr => text ++ written s tr' | stdout => written s tr' end
  | _ :: tr' => written s tr'
  end.

Definition is_out (e : Event) : bool :=
  match e with EvOut _ _ => true | _ => false end.

Definition is_get (i : nat) (e : Event) : bool :=
  match e with EvGetMute j _ => (i =? j)%nat | _ => false end.

Definition is_set (i : nat) (e : Event) : bool :=
  match e with EvSetMute j _ _ => (i =? j)%nat | _ => false end.

Definition is_get_any (e : Event) : bool :=
  match e with EvGetMute _ _ => true | _ => false end.

Definition is_set_any (e : Event) : bool :=
  match e with EvSetMute _ _ _ => true | _ => false end.

Definition count (p : Event -> bool) (tr : list Event) : nat :=
  length (List.filter p tr).

(** The endpoint a per-endpoint call is made on: the index passed to
    [Item], or the endpoint the handle the call goes through is bound to. *)
Definition endpoint_of (e : Event) : option nat :=
  match e with
  | EvItem i _ | EvOpenPropertyStore i _ | EvGetValue i _ | EvGetValueEmpty i
  | EvActivateSessionManager i _ | EvGetAudioSessionControl i _
  | EvActivateEndpointVolume i _ | EvGetMute i _ | EvSetMute i _ _ => Some i
  | _ => None
  end.

(** ** What the code amounts to

    The trace of one loop iteration, and the endpoint it leaves behind, as
    functions of the options and of the endpoint alone.  The lemmas below
    prove that the code above computes exactly these. *)

Definition log (w : World) (evs : list Event) : World :=
  {| opts_ := opts_ w; programName_ := programName_ w; host := host w;
     endpoints := endpoints w; trace := trace w ++ evs |}.

Definition error_lines (o : Options) (msg : string) : list Event :=
  if silent o then []
  else [EvOut stdout "! "; EvOut stderr msg; EvOut stderr nl].

Definition print_lines (o : Options) (msg : string) : list Event :=
  if silent o then [] else [EvOut stdout msg; EvOut stdout nl].

(** The flag the run wants every endpoint to have. *)
Definition target (o : Options) : bool := negb (unmute o).

Definition already_msg (o : Options) (name : string) : string :=
  if unmute o then "> " ++ name ++ " is already unmuted."
  else "> " ++ name ++ " is already muted.".

Definition changed_msg (o : Options) (name : string) : string :=
  "> " ++ name ++ " is now " ++ (if unmute o then "un" else "") ++ "muted".

Definition mute_events (o : Options) (i : nat) (name : string) (e : Endpoint)
  : list Event * Endpoint :=
  if get_mute_ok e then
    if Bool.eqb (muted e) (target o) then
      (EvGetMute i (Some (muted e)) :: print_lines o (already_msg o name), e)
    else if set_mute_ok e then
      (EvGetMute i (Some (muted e)) :: EvSetMute i (target o) true
         :: print_lines o (changed_msg o name),
       with_muted (target o) e)
    else
      (EvGetMute i (Some (muted e)) :: EvSetMute i (target o) false
         :: error_lines o
              ("Failed to set mute status for device " ++ quoted name),
       e)
  else
    (EvGetMute i None
       :: error_lines o ("Failed to get mute status for device " ++ quoted name),
     e).

Definition visit (o : Options) (h : Host) (i : nat) (e : Endpoint)
  : list Event * Endpoint :=
  if negb (item_ok e) then
    (EvItem i false
       :: error_lines o ("Failed to get audio endpoint #" ++ fmt_d (Z.of_nat i)),
     e)
  else if negb (property_store_ok e) then
    (EvItem i true :: EvOpenPropertyStore i false
       :: error_lines o ("Failed to open property store for audio endpoint #"
                         ++ fmt_d (Z.of_nat i)),
     e)
  else if negb (get_value_ok e) then
    (EvItem i true :: EvOpenPropertyStore i true :: EvGetValue i None
       :: error_lines o ("Failed to get device name for audio endpoint #"
                         ++ fmt_d (missing_vararg h)),
     e)
  else
    match friendly_name e with
    | None =>
        ([EvItem i true; EvOpenPropertyStore i true; EvGetValueEmpty i], e)
    | Some name =>
        let found :=
          EvItem i true :: EvOpenPropertyStore i true
            :: EvGetValue i (Some name)
            :: print_lines o ("Found audio endpoint " ++ quoted name) in
        let no_session :=
          error_lines o
            ("Failed to retrieve audio session manager for " ++ quoted name) in
        if negb (session_manager_ok e) then
          (found ++ EvActivateSessionManager i false :: no_session, e)
        else if negb (session_control_ok e) then
          (found ++ EvActivateSessionManager i true
             :: EvGetAudioSessionControl i false :: no_session, e)
        else if negb (endpoint_volume_ok e) then
          (found ++ EvActivateSessionManager i true
             :: EvGetAudioSessionControl i true
             :: EvActivateEndpointVolume i false
             :: error_lines o
                  ("Failed to active endpoint volume for device "
                   ++ quoted name),
           e)
        else
          let '(evs, e') := mute_events o i name e in
          (found ++ EvActivateSessionManager i true
             :: EvGetAudioSessionControl i true
             :: EvActivateEndpointVolume i true
             :: evs ++ [EvOut stdout nl],
           e')
    end.

(** The process dies in the iteration of [e]: [GetValue] succeeds there
    with an empty value. *)
Definition dies (e : Endpoint) : bool :=
  item_ok e && property_store_ok e && get_value_ok e
  && match friendly_name e with Some _ => false | None => true end.

(** The endpoints the loop gets to: all of them, or those up to and
    including the first in whose iteration the process dies; and the
    endpoints it does not get to. *)
Fixpoint reach (eps : list Endpoint) : list Endpoint :=
  match eps with
  | [] => []
  | e :: rest => if dies e then [e] else e :: reach rest
  end.

Fixpoint beyond (eps : list Endpoint) : list Endpoint :=
  match eps with
  | [] => []
  | e :: rest => if dies e then rest else beyond rest
  end.

(** All iterations from index [i] on, over the endpoints from there on. *)
Fixpoint walk (o : Options) (h : Host) (i : nat) (eps : list Endpoint)
  : list Event * list Endpoint :=
  match eps with
  | [] => ([], [])
  | e :: rest =>
      let '(evs, e') := visit o h i e in
      let '(evs', rest') := walk o h (S i) rest in
      (evs ++ evs', e' :: rest')
  end.

(** The program name [Init] derives from [argv[0]]. *)
Definition program_name (argv0 : string) : string :=
  match strrchr argv0 backslash with
  | Some (String _ after) => after
  | _ => argv0
  end.

(** An argument [ParseCommandLine] accepts. *)
Definition recognized (a : string) : bool :=
  (_strcmpi a "-silent" =? 0)%Z || (_strcmpi a "-unmute" =? 0)%Z.

(** [ParseCommandLine] without the world: whether every argument was
    accepted, and the options left in [opts_] when it returns. *)
Fixpoint parse_opts (o : Options) (rest : list string) : bool * Options :=
  match rest with
  | [] => (true, o)
  | a :: rest' =>
      if (_strcmpi a "-silent" =? 0)%Z then
        parse_opts {| silent := true; unmute := unmute o |} rest'
      else if (_strcmpi a "-unmute" =? 0)%Z then
        parse_opts {| silent := silent o; unmute := true |} rest'
      else (false, o)
  end.

Definition no_opts : Options := {| silent := false; unmute := false |}.

(** [Mute] without the world: its result ([None] when the process died in
    the loop), its trace, the endpoints left. *)
Definition mute_outcome (o : Options) (h : Host) (eps : list Endpoint)
  : option bool * (list Event * list Endpoint) :=
  if negb (enumerator_ok h) then
    (Some false,
     (EvCreateInstance false
        :: error_lines o "Failed to create instance of MMDeviceEnumerator",
      eps))
  else if negb (enum_ok h) then
    (Some false,
     (EvCreateInstance true :: EvEnumAudioEndpoints false
        :: error_lines o "Failed to enumerate all audio endpoints",
      eps))
  else if negb (count_ok h) then
    (Some false,
     (EvCreateInstance true :: EvEnumAudioEndpoints true :: EvGetCount None
        :: error_lines o "Failed to get endpoint count",
      eps))
  else
    (if existsb dies eps then None else Some true,
     (EvCreateInstance true :: EvEnumAudioEndpoints true
        :: EvGetCount (Some (length eps)) :: fst (walk o h 0 (reach eps)),
      snd (walk o h 0 (reach eps)) ++ beyond eps)).

Definition usage_trace (argv0 : string) : list Event :=
  [EvCoInitializeEx true; EvOut stdout (usage_text (program_name argv0));
   EvCoUninitialize].

(** What [main] makes of the result of [Mute], and whether [Shutdown] is
    reached after it. *)
Definition exit_of (done : option bool) : option Z :=
  match done with
  | Some true => Some EXIT_SUCCESS
  | Some false => Some EXIT_FAILURE
  | None => None
  end.

Definition shutdown_after (done : option bool) : list Event :=
  match done with Some _ => [EvCoUninitialize] | None => [] end.

(** [main] from [boot] without the monad. *)
Definition outcome (h : Host) (eps : list Endpoint)
    (argv0 : string) (args : list string) : option Z * World :=
  let p := program_name argv0 in
  if negb (com_ok h) then
    (Some EXIT_FAILURE,
     {| opts_ := no_opts; programName_ := p; host := h; endpoints := eps;
        trace := EvCoInitializeEx false
                 :: error_lines no_opts "Failed to initialize COM library" |})
  else if DisplayUsage (S (length args)) (argv0 :: args) then
    (Some EXIT_FAILURE,
     {| opts_ := no_opts; programName_ := p; host := h; endpoints := eps;
        trace := usage_trace argv0 |})
  else if negb (fst (parse_opts no_opts args)) then
    (Some EXIT_FAILURE,
     {| opts_ := snd (parse_opts no_opts args); programName_ := p; host := h;
        endpoints := eps; trace := usage_trace argv0 |})
  else
    let o := snd (parse_opts no_opts args) in
    let r := mute_outcome o h eps in
    (exit_of (fst r),
     {| opts_ := o; programName_ := p; host := h; endpoints := snd (snd r);
        trace := EvCoInitializeEx true
                 :: fst (snd r) ++ shutdown_after (fst r) |}).

(** The usage screen is asked for: [-help] or [-?] is the sole argument, or
    some argument is not recognized. *)
Definition usage_requested (args : list string) : Prop :=
  (exists a, args = [a] /\ (_strcmpi a "-help" = 0%Z \/ strcmp a "-?" = 0%Z))
  \/ (exists a, In a args /\ recognized a = false).

(** ** Sample hosts and endpoints *)

Definition healthy (name : string) (m : bool) : Endpoint :=
  {| item_ok := true; property_store_ok := true; get_value_ok := true;
     friendly_name := Some name;
     session_manager_ok := true; session_control_ok := true;
     endpoint_volume_ok := true; get_mute_ok := true; set_mute_ok := true;
     muted := m |}.

(** An endpoint that can be read but refuses every write. *)
Definition locked (name : string) (m : bool) : Endpoint :=
  {| item_ok := true; property_store_ok := true; get_value_ok := true;
     friendly_name := Some name;
     session_manager_ok := true; session_control_ok := true;
     endpoint_volume_ok := true; get_mute_ok := true; set_mute_ok := false;
     muted := m |}.

Definition good_host : Host :=
  {| com_ok := true; enumerator_ok := true; enum_ok := true; count_ok := true;
     missing_vararg := 0 |}.

Definition no_com_host : Host :=
  {| com_ok := false; enumerator_ok := true; enum_ok := true;
     count_ok := true; missing_vararg := 0 |}.

(** ** Properties of traces and sample endpoints used in the statements *)

(** The endpoints the calls of a trace are made on, in order. *)
Definition visited (tr : list Event) : list nat := omap endpoint_of tr.

Definition off_endpoint (i : nat) (tr : list Event) : Prop :=
  List.Forall (fun ev => endpoint_of ev <> Some i) tr.


(** No [SetMute] of the trace failed. *)
Definition all_sets_ok (tr : list Event) : bool :=
  forallb (fun e => match e with EvSetMute _ _ false => false | _ => true end)
          tr.




(** A second run from the endpoints the first one left. *)
Definition rerun (h : Host) (eps : list Endpoint)
    (argv0 : string) (args : list string) : option Z * World :=
  run h (endpoints (snd (run h eps argv0 args))) argv0 args.

(** An endpoint whose [Item] call fails. *)
Definition unreachable : Endpoint :=
  {| item_ok := false; property_store_ok := true; get_value_ok := false;
     friendly_name := None;
     session_manager_ok := true; session_control_ok := true;
     endpoint_volume_ok := true; get_mute_ok := true; set_mute_ok := true;
     muted := false |}.

(** An endpoint whose property store holds no friendly name: [GetValue]
    succeeds on it with an empty value. *)
Definition nameless (m : bool) : Endpoint :=
  {| item_ok := true; property_store_ok := true; get_value_ok := true;
     friendly_name := None;
     session_manager_ok := true; session_control_ok := true;
     endpoint_volume_ok := true; get_mute_ok := true; set_mute_ok := true;
     muted := m |}.

(** An endpoint whose audio session manager cannot be activated. *)
Definition no_session (name : string) (m : bool) : Endpoint :=
  {| item_ok := true; property_store_ok := true; get_value_ok := true;
     friendly_name := Some name;
     session_manager_ok := false; session_control_ok := true;
     endpoint_volume_ok := true; get_mute_ok := true; set_mute_ok := true;
     muted := m |}.

(** ** Further properties of command lines, endpoints and traces *)

Definition is_silent_arg (a : string) : bool := (_strcmpi a "-silent" =? 0)%Z.

(** An argument that reaches the [-unmute] branch of [ParseCommandLine]. *)
Definition is_unmute_arg (a : string) : bool :=
  negb (_strcmpi a "-silent" =? 0)%Z && (_strcmpi a "-unmute" =? 0)%Z.

(** The arguments [ParseCommandLine] reads and accepts: those before the
    first one that is not recognized. *)
Fixpoint accepted (args : list string) : list string :=
  match args with
  | [] => []
  | a :: rest => if recognized a then a :: accepted rest else []
  end.

(** The flags of [o] and those the arguments [args] name. *)
Definition flags_after (o : Options) (args : list string) : Options :=
  {| silent := silent o || existsb is_silent_arg args;
     unmute := unmute o || existsb is_unmute_arg args |}.

(** [s] has no directory part left: it holds no backslash. *)
Definition no_backslash (s : string) : Prop := strrchr s backslash = None.

(** Every call the loop body makes on the endpoint succeeds. *)
Definition all_ok (e : Endpoint) : bool :=
  item_ok e && property_store_ok e && get_value_ok e
  && match friendly_name e with Some _ => true | None => false end
  && session_manager_ok e && session_control_ok e && endpoint_volume_ok e
  && get_mute_ok e && set_mute_ok e.

(** What a completed walk with options [o] leaves of endpoint [e]. *)
Definition settled (o : Options) (e : Endpoint) : Endpoint :=
  if all_ok e then with_muted (target o) e else e.

Definition item_index (e : Event) : option nat :=
  match e with EvItem i _ => Some i | _ => None end.

Definition is_com (e : Event) : bool :=
  match e with EvCoInitializeEx _ | EvCoUninitialize => true | _ => false end.

(** The calls of a trace, without the writes. *)
Definition calls (tr : list Event) : list Event :=
  List.filter (fun e => negb (is_out e)) tr.

Definition hush (o : Options) : Options :=
  {| silent := true; unmute := unmute o |}.

(** A call that failed. *)
Definition is_failure (e : Event) : bool :=
  match e with
  | EvCoInitializeEx ok | EvCreateInstance ok | EvEnumAudioEndpoints ok
  | EvItem _ ok | EvOpenPropertyStore _ ok | EvActivateSessionManager _ ok
  | EvGetAudioSessionControl _ ok | EvActivateEndpointVolume _ ok
  | EvSetMute _ _ ok => negb ok
  | EvGetCount None | EvGetValue _ None | EvGetMute _ None => true
  | _ => false
  end.

(** The mute-control handle of an endpoint was acquired. *)
Definition is_acquired (e : Event) : bool :=
  match e with EvActivateEndpointVolume _ true => true | _ => false end.

Fixpoint newlines (k : nat) : string :=
  match k with
  | O => ""
  | S k' => (nl ++ newlines k')%string
  end.

(** The world after iteration [i] left endpoint [e'] there. *)
Definition put (i : nat) (e' : Endpoint) (w : World) : World :=
  {| opts_ := opts_ w; programName_ := programName_ w; host := host w;
     endpoints := <[i := e']> (endpoints w); trace := trace w |}.

(** ** The code computes the summary *)

Ltac unfold_M :=
  unfold mbind, M_bind, mret, M_ret, die, emit, get_opts, set_opts, get_host,
    get_programName, set_programName, get_endpoint, set_endpoint,
    endpoint_says in *.

Lemma PrintError_run msg w :
  PrintError msg w = (Some tt, log w (error_lines (opts_ w) msg)).
Proof.
  destruct w as [[s u] p h eps tr].
  unfold PrintError, error_lines, log; unfold_M; simpl.
  destruct s; simpl; rewrite <- ?app_assoc, ?app_nil_r; reflexivity.
Qed.

Lemma Print_run msg w :
  Print msg w = (Some tt, log w (print_lines (opts_ w) msg)).
Proof.
  destruct w as [[s u] p h eps tr].
  unfold Print, print_lines, log; unfold_M; simpl.
  destruct s; simpl; rewrite <- ?app_assoc, ?app_nil_r; reflexivity.
Qed.

Lemma MuteEndpoint_run i name e w :
  endpoints w !! i = Some e ->
  MuteEndpoint (EndpointVolumePtr i) name w =
  (Some tt, put i (snd (mute_events (opts_ w) i name e))
         (log w (fst (mute_events (opts_ w) i name e)))).
Proof.
  intros He.
  assert (Hid : <[i := e]> (endpoints w) = endpoints w)
    by (apply list_insert_id; exact He).
  destruct w as [[s u] p h eps tr]; simpl in *.
  unfold MuteEndpoint, GetMute, SetMute, mute_events, target, put, log.
  unfold_M; simpl. rewrite He; simpl.
  destruct (get_mute_ok e); simpl.
  2:{ rewrite PrintError_run; unfold log; simpl.
      rewrite Hid, <- app_assoc; reflexivity. }
  destruct (muted e), u; simpl;
    try (rewrite Print_run; unfold log, already_msg; simpl;
         rewrite Hid, <- app_assoc; reflexivity).
  all: rewrite He; destruct (set_mute_ok e); simpl;
    rewrite ?Print_run, ?PrintError_run; unfold log, changed_msg; simpl;
    rewrite ?Hid, <- !app_assoc; reflexivity.
Qed.

(** A [continue] of the loop body: the diagnostic, and nothing stored. *)
Ltac skip_case Hid :=
  rewrite PrintError_run;
  match goal with w : World |- _ => destruct w end;
  unfold put, log in *; simpl in *;
  rewrite Hid, <- ?app_assoc; simpl; rewrite <- ?app_assoc; reflexivity.

Lemma Mute_body_run i e w :
  endpoints w !! i = Some e ->
  Mute_body i w =
  (if dies e then None else Some tt,
   put i (snd (visit (opts_ w) (host w) i e))
     (log w (fst (visit (opts_ w) (host w) i e)))).
Proof.
  intros He.
  assert (Hid : <[i := e]> (endpoints w) = endpoints w)
    by (apply list_insert_id; exact He).
  unfold Mute_body, visit, dies, Item, OpenPropertyStore, GetValue,
    ActivateSessionManager, GetAudioSessionControl, ActivateEndpointVolume.
  unfold_M; simpl. rewrite He; simpl.
  destruct (item_ok e); simpl.
  2:{ skip_case Hid. }
  rewrite He; simpl. destruct (property_store_ok e); simpl.
  2:{ skip_case Hid. }
  rewrite He; simpl. destruct (get_value_ok e); simpl.
  2:{ skip_case Hid. }
  destruct (friendly_name e) as [name|]; simpl.
  2:{ destruct w; unfold put, log in *; simpl in *.
      rewrite Hid, <- ?app_assoc. reflexivity. }
  rewrite Print_run; simpl. rewrite He; simpl.
  destruct (session_manager_ok e); simpl.
  2:{ skip_case Hid. }
  rewrite He; simpl. destruct (session_control_ok e); simpl.
  2:{ skip_case Hid. }
  rewrite He; simpl. destruct (endpoint_volume_ok e); simpl.
  2:{ skip_case Hid. }
  rewrite (MuteEndpoint_run i name e) by (simpl; exact He).
  simpl. destruct (mute_events _ i name e) as [evs e'] eqn:Hm; simpl.
  destruct w; unfold put, log in *; simpl in *.
  rewrite <- ?app_assoc; simpl. rewrite <- ?app_assoc. reflexivity.
Qed.

Lemma reach_cons e rest :
  reach (e :: rest) = if dies e then [e] else e :: reach rest.
Proof. reflexivity. Qed.

Lemma walk_cons o h i e rest :
  walk o h i (e :: rest) =
  (fst (visit o h i e) ++ fst (walk o h (S i) rest),
   snd (visit o h i e) :: snd (walk o h (S i) rest)).
Proof.
  cbn [walk]. destruct (visit o h i e), (walk o h (S i) rest). reflexivity.
Qed.

Lemma Mute_loop_run eps : forall pre w,
  endpoints w = pre ++ eps ->
  Mute_loop (length eps) (length pre) w =
  (if existsb dies eps then None else Some tt,
   {| opts_ := opts_ w; programName_ := programName_ w; host := host w;
      endpoints :=
        pre ++ snd (walk (opts_ w) (host w) (length pre) (reach eps))
        ++ beyond eps;
      trace := trace w
               ++ fst (walk (opts_ w) (host w) (length pre) (reach eps)) |}).
Proof.
  induction eps as [|e rest IH]; intros pre w Hw.
  - simpl. destruct w; simpl in *. subst. rewrite !app_nil_r. reflexivity.
  - assert (He : endpoints w !! length pre = Some e)
      by (rewrite Hw; apply list_lookup_middle; reflexivity).
    cbn [Mute_loop length existsb reach beyond].
    unfold mbind at 1, M_bind at 1.
    rewrite (Mute_body_run _ e) by exact He.
    destruct (dies e) eqn:Hd; cbn [orb].
    + rewrite walk_cons. cbn [walk fst snd]. unfold put, log; cbn.
      rewrite Hw, insert_app_r_alt, Nat.sub_diag, !app_nil_r by reflexivity.
      reflexivity.
    + rewrite walk_cons. cbn [fst snd].
      specialize (IH (pre ++ [snd (visit (opts_ w) (host w) (length pre) e)])
                     (put (length pre)
                        (snd (visit (opts_ w) (host w) (length pre) e))
                        (log w (fst (visit (opts_ w) (host w) (length pre) e))))).
      rewrite length_app, Nat.add_comm in IH. cbn [length Nat.add] in IH.
      rewrite IH.
      * unfold put, log; cbn. rewrite <- !app_assoc. reflexivity.
      * unfold put, log; cbn. rewrite Hw.
        rewrite insert_app_r_alt, Nat.sub_diag by reflexivity.
        rewrite <- app_assoc. reflexivity.
Qed.

Lemma ParseCommandLine_loop_run rest : forall w,
  ParseCommandLine_loop rest w =
  (Some (fst (parse_opts (opts_ w) rest)),
   {| opts_ := snd (parse_opts (opts_ w) rest);
      programName_ := programName_ w; host := host w;
      endpoints := endpoints w; trace := trace w |}).
Proof.
  induction rest as [|a rest IH]; intros w.
  - destruct w; reflexivity.
  - cbn [ParseCommandLine_loop parse_opts].
    destruct (_strcmpi a "-silent" =? 0)%Z.
    + unfold_M. rewrite IH. reflexivity.
    + destruct (_strcmpi a "-unmute" =? 0)%Z.
      * unfold_M. rewrite IH. reflexivity.
      * destruct w; reflexivity.
Qed.

Lemma Mute_run w :
  Mute w =
  (fst (mute_outcome (opts_ w) (host w) (endpoints w)),
   {| opts_ := opts_ w; programName_ := programName_ w; host := host w;
      endpoints := snd (snd (mute_outcome (opts_ w) (host w) (endpoints w)));
      trace := trace w
               ++ fst (snd (mute_outcome (opts_ w) (host w) (endpoints w))) |}).
Proof.
  unfold Mute, mute_outcome, CreateInstance, EnumAudioEndpoints, GetCount.
  unfold_M. simpl.
  destruct (enumerator_ok (host w)); simpl.
  2:{ rewrite PrintError_run. destruct w; unfold log; simpl.
      rewrite <- app_assoc. reflexivity. }
  destruct (enum_ok (host w)); simpl.
  2:{ rewrite PrintError_run. destruct w; unfold log; simpl.
      rewrite <- !app_assoc. reflexivity. }
  destruct (count_ok (host w)); simpl.
  2:{ rewrite PrintError_run. destruct w; unfold log; simpl.
      rewrite <- !app_assoc. reflexivity. }
  pose proof (Mute_loop_run (endpoints w) []) as Hl. simpl in Hl.
  rewrite Hl by reflexivity.
  destruct (existsb dies (endpoints w)); simpl; rewrite <- !app_assoc;
    reflexivity.
Qed.

(** The code and its summary agree on every host and command line. *)
Lemma run_outcome h eps argv0 args :
  run h eps argv0 args = outcome h eps argv0 args.
Proof.
  unfold run, outcome, main, Init, Shutdown, CoInitializeEx, CoUninitialize,
    PrintUsage, ParseCommandLine, boot.
  fold (program_name argv0). unfold_M. cbn [length host trace opts_].
  simpl (default _ _). fold (program_name argv0).
  destruct (com_ok h); cbn [negb].
  2:{ rewrite PrintError_run. reflexivity. }
  destruct (DisplayUsage _ _); [reflexivity|].
  rewrite firstn_all2 by (simpl; lia). simpl (drop _ _). rewrite drop_0.
  rewrite ParseCommandLine_loop_run. cbn [opts_ programName_ host endpoints trace].
  fold no_opts.
  destruct (fst (parse_opts no_opts args)); cbn [negb]; [|reflexivity].
  rewrite Mute_run. cbn [opts_ programName_ host endpoints trace].
  destruct (fst (mute_outcome _ h eps)) as [[|]|]; simpl;
    rewrite <- ?app_assoc, ?app_nil_r; reflexivity.
Qed.

(** ** One iteration *)

(** Case analysis along the steps of one iteration, in the order the loop
    body takes them. *)
Ltac visit_cases o e :=
  unfold visit, mute_events, error_lines, print_lines, target in *;
  destruct o as [o_s o_u],
           e as [e_it e_ps e_gv e_fn e_sm e_sc e_ev e_g e_st e_m];
  cbn [item_ok property_store_ok get_value_ok friendly_name
       session_manager_ok session_control_ok endpoint_volume_ok get_mute_ok
       set_mute_ok muted silent unmute with_muted] in *;
  destruct e_it; cbn [negb fst snd] in *;
  [destruct e_ps; cbn [negb fst snd] in *;
   [destruct e_gv; cbn [negb fst snd] in *;
    [destruct e_fn as [name|];
     [destruct e_sm; cbn [negb fst snd] in *;
      [destruct e_sc; cbn [negb fst snd] in *;
       [destruct e_ev; cbn [negb fst snd] in *;
        [destruct e_g;
         [destruct e_m, o_u; cbn [negb Bool.eqb fst snd] in *;
          try destruct e_st|]|]|]|]|]|]|]|];
  destruct o_s; cbn [negb Bool.eqb fst snd app] in *.

Lemma count_app p a b : count p (a ++ b) = count p a + count p b.
Proof. unfold count. rewrite List.filter_app, length_app. reflexivity. Qed.

Lemma count_none p tr :
  Forall (fun e => p e = false) tr -> count p tr = 0.
Proof.
  unfold count. induction 1 as [|e tr He _ IH]; simpl; [reflexivity|].
  rewrite He. exact IH.
Qed.

(** Every call of iteration [i] is made on endpoint [i]. *)
Lemma visit_local o h i e :
  Forall (fun ev => forall j, endpoint_of ev = Some j -> j = i)
         (fst (visit o h i e)).
Proof.
  visit_cases o e.
  all: repeat constructor; cbn [endpoint_of]; intros; congruence.
Qed.

Lemma visit_one_get o h i e : count is_get_any (fst (visit o h i e)) <= 1.
Proof. visit_cases o e; cbv [count List.filter is_get_any length]; lia. Qed.

Lemma visit_one_set o h i e : count is_set_any (fst (visit o h i e)) <= 1.
Proof. visit_cases o e; cbv [count List.filter is_set_any length]; lia. Qed.

Lemma visit_item o h i e :
  exists ok, In (EvItem i ok) (fst (visit o h i e)).
Proof. visit_cases o e; eexists; left; reflexivity. Qed.

(** ** The whole walk *)

Lemma walk_In o h eps : forall i ev,
  In ev (fst (walk o h i eps)) <->
  exists j e, eps !! j = Some e /\ In ev (fst (visit o h (i + j) e)).
Proof.
  induction eps as [|e rest IH]; intros i ev.
  - simpl. split; [tauto|]. intros (j & e & H & _). discriminate.
  - rewrite walk_cons. cbn [fst]. rewrite in_app_iff, IH. split.
    + intros [H|(j & e' & Hj & H)].
      * exists 0, e. rewrite Nat.add_0_r. auto.
      * exists (S j), e'. rewrite Nat.add_succ_r. auto.
    + intros ([|j] & e' & Hj & H).
      * left. simpl in Hj. injection Hj as <-. rewrite Nat.add_0_r in H. exact H.
      * right. exists j, e'. rewrite Nat.add_succ_r in H. auto.
Qed.

Lemma walk_lookup o h eps : forall i j,
  snd (walk o h i eps) !! j =
  (fun e => snd (visit o h (i + j) e)) <$> eps !! j.
Proof.
  induction eps as [|e rest IH]; intros i j; [reflexivity|].
  rewrite walk_cons. cbn [snd]. destruct j as [|j]; simpl.
  - rewrite Nat.add_0_r. reflexivity.
  - rewrite IH, Nat.add_succ_r. reflexivity.
Qed.

(** The calls of the walk from index [i] on are on endpoints [i], [i+1],
    ... in this order. *)
Lemma walk_from o h eps : forall i ev j,
  In ev (fst (walk o h i eps)) -> endpoint_of ev = Some j -> i <= j.
Proof.
  intros i ev j Hin Hj. apply walk_In in Hin as (k & e & _ & Hin).
  pose proof (visit_local o h (i + k) e) as Hl.
  rewrite List.Forall_forall in Hl. specialize (Hl _ Hin _ Hj). lia.
Qed.

Lemma walk_count_below p o h eps : forall i,
  (forall e, p e = true -> exists j, endpoint_of e = Some j /\ j < i) ->
  count p (fst (walk o h i eps)) = 0.
Proof.
  intros i Hp. apply count_none, List.Forall_forall. intros ev Hin.
  destruct (p ev) eqn:Hpe; [|reflexivity].
  destruct (Hp _ Hpe) as (j & Hj & Hlt).
  pose proof (walk_from _ _ _ _ _ _ Hin Hj). lia.
Qed.

(** The calls that are not made on an endpoint. *)
Lemma visit_per_endpoint o h i e ev :
  In ev (fst (visit o h i e)) -> is_out ev = true \/ endpoint_of ev = Some i.
Proof.
  visit_cases o e; cbn [In]; intros H;
    repeat (destruct H as [<-|H]; [cbn; auto|]); destruct H.
Qed.

Lemma walk_per_endpoint o h eps i ev :
  In ev (fst (walk o h i eps)) ->
  is_out ev = true \/ exists j, endpoint_of ev = Some j.
Proof.
  intros Hin. apply walk_In in Hin as (k & e & _ & Hin).
  apply visit_per_endpoint in Hin as [?|?]; eauto.
Qed.

(** ** The command line *)

Lemma parse_opts_accepts args : forall o,
  fst (parse_opts o args) = forallb recognized args.
Proof.
  induction args as [|a args IH]; intros o; [reflexivity|].
  cbn [parse_opts forallb]. unfold recognized at 1.
  destruct (_strcmpi a "-silent" =? 0)%Z; [apply IH|].
  destruct (_strcmpi a "-unmute" =? 0)%Z; [apply IH|reflexivity].
Qed.

Lemma usage_requested_decided argv0 args :
  usage_requested args ->
  DisplayUsage (S (length args)) (argv0 :: args) = true
  \/ fst (parse_opts no_opts args) = false.
Proof.
  intros [(a & -> & Ha)|(a & Hin & Ha)].
  - left. unfold DisplayUsage. cbn.
    destruct Ha as [->| ->]; cbn; rewrite ?orb_true_r; reflexivity.
  - right. rewrite parse_opts_accepts.
    destruct (forallb recognized args) eqn:Hall; [|reflexivity].
    rewrite forallb_forall in Hall. rewrite (Hall _ Hin) in Ha. discriminate.
Qed.

Lemma append_empty_r (s : string) : (s ++ "")%string = s.
Proof. induction s as [|c s IH]; simpl; [|rewrite IH]; reflexivity. Qed.

(** ** Exit code and usage screen *)

(** C7, as amended.  Whenever the usage screen is asked for ([-help] or
    [-?] as the sole argument, or an argument that is not recognized), the
    process exits with [EXIT_FAILURE], that is 1: [rc] is only ever set to
    [EXIT_SUCCESS] after [Mute] returned true, and the usage path never
    calls [Mute].  When COM initialisation succeeded, what the run wrote to
    standard output is the usage text. *)
Theorem usage_exits_with_failure h eps argv0 args :
  usage_requested args ->
  fst (run h eps argv0 args) = Some EXIT_FAILURE /\
  (com_ok h = true ->
   written stdout (trace (snd (run h eps argv0 args)))
   = usage_text (program_name argv0)).
Proof.
  intros Hu. apply (usage_requested_decided argv0) in Hu.
  rewrite run_outcome. unfold outcome.
  destruct (com_ok h); cbn [negb].
  2:{ split; [reflexivity|discriminate]. }
  destruct Hu as [Hu|Hu].
  - rewrite Hu. split; [reflexivity|]. intros _. cbn.
    apply append_empty_r.
  - destruct (DisplayUsage _ _).
    + split; [reflexivity|]. intros _. cbn. apply append_empty_r.
    + rewrite Hu. split; [reflexivity|]. intros _. cbn. apply append_empty_r.
Qed.

Lemma usage_exits_with_failure_witness :
  fst (run good_host [healthy "Speakers" false] "mute.exe" ["-unmute"; "-x"])
  = Some EXIT_FAILURE /\
  (com_ok good_host = true ->
   written stdout
     (trace (snd (run good_host [healthy "Speakers" false] "mute.exe"
                    ["-unmute"; "-x"])))
   = usage_text (program_name "mute.exe")).
Proof.
  apply (usage_exits_with_failure good_host [healthy "Speakers" false]
           "mute.exe" ["-unmute"; "-x"]).
  right. exists "-x". split; [right; left; reflexivity | reflexivity].
Defined.

(** C7 as stated fails: [mute.exe -help] shows the usage screen and exits
    with 1, not 0. *)
Lemma help_exits_with_one :
  written stdout (trace (snd (run good_host [] "mute.exe" ["-help"])))
  = usage_text "mute.exe"
  /\ fst (run good_host [] "mute.exe" ["-help"]) = Some 1%Z.
Proof. split; reflexivity. Qed.

(** C6, as amended.  When the usage screen is asked for, the endpoints are
    left as they were and the run is, in full: COM initialisation, the
    usage text on standard output, COM shutdown -- provided COM
    initialisation succeeded.  When it failed, the run is the failed
    initialisation and its diagnostic, and no usage text.  Either way no
    enumerator is created, nothing is enumerated and no mute flag is read
    or written. *)
Theorem usage_skips_the_walker h eps argv0 args :
  usage_requested args ->
  endpoints (snd (run h eps argv0 args)) = eps /\
  trace (snd (run h eps argv0 args)) =
    (if com_ok h then
       [EvCoInitializeEx true; EvOut stdout (usage_text (program_name argv0));
        EvCoUninitialize]
     else
       [EvCoInitializeEx false; EvOut stdout "! ";
        EvOut stderr "Failed to initialize COM library"; EvOut stderr nl]).
Proof.
  intros Hu. apply (usage_requested_decided argv0) in Hu.
  rewrite run_outcome. unfold outcome.
  destruct (com_ok h); cbn [negb]; [|split; reflexivity].
  destruct Hu as [Hu|Hu].
  - rewrite Hu. split; reflexivity.
  - destruct (DisplayUsage _ _); [split; reflexivity|].
    rewrite Hu. split; reflexivity.
Qed.

Lemma usage_skips_the_walker_witness :
  endpoints (snd (run good_host [healthy "Speakers" false] "C:\bin\mute.exe"
                    ["-HELP"]))
  = [healthy "Speakers" false] /\
  trace (snd (run good_host [healthy "Speakers" false] "C:\bin\mute.exe"
                ["-HELP"])) =
    (if com_ok good_host then
       [EvCoInitializeEx true;
        EvOut stdout (usage_text (program_name "C:\bin\mute.exe"));
        EvCoUninitialize]
     else
       [EvCoInitializeEx false; EvOut stdout "! ";
        EvOut stderr "Failed to initialize COM library"; EvOut stderr nl]).
Proof.
  apply (usage_skips_the_walker good_host [healthy "Speakers" false]
           "C:\bin\mute.exe" ["-HELP"]).
  left. exists "-HELP". split; [reflexivity | left; reflexivity].
Defined.

(** C6 as stated fails: when COM initialisation fails, [mute.exe -help]
    prints the COM diagnostic and no usage text. *)
Lemma help_without_com_prints_no_usage :
  trace (snd (run no_com_host [healthy "Speakers" false] "mute.exe" ["-help"]))
  = [EvCoInitializeEx false; EvOut stdout "! ";
     EvOut stderr "Failed to initialize COM library"; EvOut stderr nl].
Proof. reflexivity. Qed.

(** ** Output *)

(** C4 fails on the code.  With [-silent] and one endpoint on which every
    call succeeds, the run still writes a newline to standard output: the
    [fputs] that closes an iteration does not go through [Print]. *)
Theorem silent_run_still_writes :
  written stdout
    (trace (snd (run good_host [healthy "Speakers" false] "mute.exe"
                   ["-silent"])))
  = nl.
Proof. reflexivity. Qed.

(** C5 fails on the code.  With no flags and one endpoint that refuses the
    write, the diagnostic of the failed [SetMute] reaches standard error
    without the prefix: [PrintError] sends the prefix to standard output,
    where it lands between the status lines. *)
Theorem diagnostic_prefix_goes_to_stdout :
  written stderr
    (trace (snd (run good_host [locked "Speakers" false] "mute.exe" [])))
  = ("Failed to set mute status for device " ++ quoted "Speakers" ++ nl)%string
  /\
  written stdout
    (trace (snd (run good_host [locked "Speakers" false] "mute.exe" [])))
  = ("Found audio endpoint " ++ quoted "Speakers" ++ nl ++ "! " ++ nl)%string.
Proof. split; reflexivity. Qed.

(** ** Fatal failures and the empty collection *)

Lemma walk_no_global o h eps i ev :
  In ev (fst (walk o h i eps)) -> is_out ev = false ->
  endpoint_of ev = None -> False.
Proof.
  intros Hin Ho He. apply walk_per_endpoint in Hin as [H|(j & H)]; congruence.
Qed.

(** What a run looks like once the command line was accepted and COM is up:
    the outcome of [Mute] between initialisation and shutdown. *)
Lemma run_cases h eps argv0 args :
  (com_ok h = false /\
   run h eps argv0 args =
   (Some EXIT_FAILURE,
    {| opts_ := no_opts; programName_ := program_name argv0; host := h;
       endpoints := eps;
       trace := EvCoInitializeEx false
                :: error_lines no_opts "Failed to initialize COM library" |}))
  \/ (com_ok h = true /\
      exists o,
        run h eps argv0 args =
        (Some EXIT_FAILURE,
         {| opts_ := o; programName_ := program_name argv0; host := h;
            endpoints := eps; trace := usage_trace argv0 |}))
  \/ (com_ok h = true /\
      exists o,
        run h eps argv0 args =
        (exit_of (fst (mute_outcome o h eps)),
         {| opts_ := o; programName_ := program_name argv0; host := h;
            endpoints := snd (snd (mute_outcome o h eps));
            trace := EvCoInitializeEx true
                     :: fst (snd (mute_outcome o h eps))
                     ++ shutdown_after (fst (mute_outcome o h eps)) |})).
Proof.
  rewrite run_outcome. unfold outcome.
  destruct (com_ok h); cbn [negb]; [|left; split; reflexivity].
  right. destruct (DisplayUsage _ _); [left; split; eauto|].
  destruct (fst (parse_opts no_opts args)); cbn [negb];
    [right|left]; split; eauto.
Qed.

(** The calls of a walk that are not made on an endpoint. *)
Lemma walked_globals o h n eps done ev :
  In ev (EvCoInitializeEx true
         :: (EvCreateInstance true :: EvEnumAudioEndpoints true
             :: EvGetCount (Some n) :: fst (walk o h 0 eps))
         ++ shutdown_after done) ->
  is_out ev = false -> endpoint_of ev = None ->
  ev = EvCoInitializeEx true \/ ev = EvCreateInstance true
  \/ ev = EvEnumAudioEndpoints true
  \/ ev = EvGetCount (Some n)
  \/ ev = EvCoUninitialize.
Proof.
  intros Hin Ho He. cbn [app In] in Hin.
  destruct Hin as [<-|[<-|[<-|[<-|Hin]]]]; auto.
  apply in_app_iff in Hin as [Hin|Hin].
  - destruct (walk_no_global _ _ _ _ _ Hin Ho He).
  - destruct done; cbn in Hin; [destruct Hin as [<-|[]]; auto 6|destruct Hin].
Qed.

Ltac in_cases H :=
  repeat (destruct H as [H|H]; [try discriminate H|]); try destruct H.



(** C8.  When the endpoint-count query reports an empty collection, the
    run is, in full: COM initialisation, creation of the enumerator, the
    enumeration, the count query, COM shutdown.  The loop body is never
    entered, nothing is written to either stream, and the exit code is
    [EXIT_SUCCESS] (0). *)
Theorem empty_collection_succeeds h eps argv0 args :
  In (EvGetCount (Some 0)) (trace (snd (run h eps argv0 args))) ->
  fst (run h eps argv0 args) = Some EXIT_SUCCESS /\
  trace (snd (run h eps argv0 args))
  = [EvCoInitializeEx true; EvCreateInstance true; EvEnumAudioEndpoints true;
     EvGetCount (Some 0); EvCoUninitialize].
Proof.
  destruct (run_cases h eps argv0 args)
    as [[_ ->]|[[_ [o ->]]|[_ [o ->]]]]; cbn [fst snd trace].
  - cbn. intros H; in_cases H.
  - unfold usage_trace. intros H; in_cases H.
  - unfold mute_outcome.
    destruct (enumerator_ok h); cbn [negb fst snd shutdown_after exit_of].
    2:{ unfold error_lines; destruct (silent o); intros H; in_cases H. }
    destruct (enum_ok h); cbn [negb fst snd shutdown_after exit_of].
    2:{ unfold error_lines; destruct (silent o); intros H; in_cases H. }
    destruct (count_ok h); cbn [negb fst snd shutdown_after exit_of].
    2:{ unfold error_lines; destruct (silent o); intros H; in_cases H. }
    intros H. apply walked_globals in H; try reflexivity.
    destruct H as [H|[H|[H|[H|H]]]]; try discriminate H.
    injection H as H. symmetry in H. apply length_zero_iff_nil in H.
    subst eps. split; reflexivity.
Qed.

Lemma empty_collection_succeeds_witness :
  fst (run good_host [] "mute.exe" ["-unmute"]) = Some EXIT_SUCCESS /\
  trace (snd (run good_host [] "mute.exe" ["-unmute"]))
  = [EvCoInitializeEx true; EvCreateInstance true; EvEnumAudioEndpoints true;
     EvGetCount (Some 0); EvCoUninitialize].
Proof.
  apply (empty_collection_succeeds good_host [] "mute.exe" ["-unmute"]).
  right. right. right. left. reflexivity.
Defined.

(** ** Best-effort isolation *)

(** C2 fails on the code.  With no flags and two endpoints, the first with
    no friendly name in its property store and the second working, the
    process dies in the first iteration, after the successful [GetValue]:
    nothing is returned, so the exit code is not 0, [Item] is never called
    for the second endpoint, which stays unmuted, and COM is not shut
    down. *)
Theorem empty_name_kills_the_walk :
  fst (run good_host [nameless false; healthy "Headset" false] "mute.exe" [])
  = None
  /\ trace (snd (run good_host [nameless false; healthy "Headset" false]
                   "mute.exe" []))
     = [EvCoInitializeEx true; EvCreateInstance true;
        EvEnumAudioEndpoints true; EvGetCount (Some 2); EvItem 0 true;
        EvOpenPropertyStore 0 true; EvGetValueEmpty 0]
  /\ endpoints (snd (run good_host [nameless false; healthy "Headset" false]
                       "mute.exe" []))
     = [nameless false; healthy "Headset" false].
Proof. vm_compute. repeat split. Qed.

(** ** One read, one write, and no handle kept *)

Lemma count_le p q tr :
  (forall e, p e = true -> q e = true) -> count p tr <= count q tr.
Proof.
  intros Hpq. unfold count.
  induction tr as [|e tr IH]; simpl; [lia|].
  destruct (p e) eqn:Hp.
  - rewrite (Hpq _ Hp). simpl. lia.
  - destruct (q e); simpl; lia.
Qed.

(** A count of calls on endpoint [i] that no iteration makes twice is at
    most one over the whole walk. *)
Lemma walk_count_once p i o h eps :
  (forall e, p e = true -> endpoint_of e = Some i) ->
  (forall k e, count p (fst (visit o h k e)) <= 1) ->
  forall k, count p (fst (walk o h k eps)) <= 1.
Proof.
  intros Hp Hv. induction eps as [|e rest IH]; intros k.
  - cbn. lia.
  - rewrite walk_cons. cbn [fst]. rewrite count_app.
    destruct (Nat.eq_dec k i) as [->|Hne].
    + rewrite (walk_count_below p o h rest (S i)).
      * specialize (Hv i e). lia.
      * intros ev Hev. exists i. split; [apply Hp, Hev|lia].
    + rewrite (count_none p (fst (visit o h k e))).
      * apply IH.
      * apply List.Forall_forall. intros ev Hin.
        destruct (p ev) eqn:Hev; [|reflexivity].
        pose proof (visit_local o h k e) as Hl.
        rewrite List.Forall_forall in Hl.
        specialize (Hl _ Hin _ (Hp _ Hev)). congruence.
Qed.

Lemma is_get_endpoint i e : is_get i e = true -> endpoint_of e = Some i.
Proof.
  destruct e; cbn; try discriminate.
  intros H. apply Nat.eqb_eq in H. congruence.
Qed.

Lemma is_set_endpoint i e : is_set i e = true -> endpoint_of e = Some i.
Proof.
  destruct e; cbn; try discriminate.
  intros H. apply Nat.eqb_eq in H. congruence.
Qed.

Lemma is_get_is_get_any i e : is_get i e = true -> is_get_any e = true.
Proof. destruct e; cbn; congruence. Qed.

Lemma is_set_is_set_any i e : is_set i e = true -> is_set_any e = true.
Proof. destruct e; cbn; congruence. Qed.

Lemma mute_outcome_count_once p i o h eps :
  (forall e, p e = true -> endpoint_of e = Some i) ->
  (forall k e, count p (fst (visit o h k e)) <= 1) ->
  count p (EvCoInitializeEx true
           :: fst (snd (mute_outcome o h eps))
           ++ shutdown_after (fst (mute_outcome o h eps))) <= 1.
Proof.
  intros Hp Hv.
  assert (Hg : forall e, endpoint_of e = None -> p e = false).
  { intros e He. destruct (p e) eqn:Hpe; [|reflexivity].
    apply Hp in Hpe. congruence. }
  assert (Hout : forall msg, count p (error_lines o msg) = 0).
  { intros msg. apply count_none. unfold error_lines.
    destruct (silent o); repeat constructor; apply Hg; reflexivity. }
  assert (Hsd : forall done, count p (shutdown_after done) = 0).
  { intros [d|]; apply count_none; repeat constructor; apply Hg; reflexivity. }
  change (EvCoInitializeEx true :: ?l ++ ?r)
    with ([EvCoInitializeEx true] ++ l ++ r).
  rewrite !count_app, Hsd.
  rewrite (count_none p [EvCoInitializeEx true])
    by (repeat constructor; apply Hg; reflexivity).
  unfold mute_outcome.
  destruct (enumerator_ok h); cbn [negb fst snd shutdown_after exit_of].
  2:{ change (EvCreateInstance false :: ?l)
        with ([EvCreateInstance false] ++ l).
      rewrite count_app, Hout, count_none; [lia|].
      repeat constructor; apply Hg; reflexivity. }
  destruct (enum_ok h); cbn [negb fst snd shutdown_after exit_of].
  2:{ change (EvCreateInstance true :: EvEnumAudioEndpoints false :: ?l)
        with ([EvCreateInstance true; EvEnumAudioEndpoints false] ++ l).
      rewrite count_app, Hout, count_none; [lia|].
      repeat constructor; apply Hg; reflexivity. }
  destruct (count_ok h); cbn [negb fst snd shutdown_after exit_of].
  2:{ change (EvCreateInstance true :: EvEnumAudioEndpoints true
              :: EvGetCount None :: ?l)
        with ([EvCreateInstance true; EvEnumAudioEndpoints true;
               EvGetCount None] ++ l).
      rewrite count_app, Hout, count_none; [lia|].
      repeat constructor; apply Hg; reflexivity. }
  change (EvCreateInstance true :: EvEnumAudioEndpoints true
          :: EvGetCount (Some (length eps)) :: ?l)
    with ([EvCreateInstance true; EvEnumAudioEndpoints true;
           EvGetCount (Some (length eps))] ++ l).
  rewrite count_app, count_none
    by (repeat constructor; apply Hg; reflexivity).
  pose proof (walk_count_once p i o h (reach eps) Hp Hv 0). lia.
Qed.

Lemma run_count_once p i h eps argv0 args :
  (forall e, p e = true -> endpoint_of e = Some i) ->
  (forall o k e, count p (fst (visit o h k e)) <= 1) ->
  count p (trace (snd (run h eps argv0 args))) <= 1.
Proof.
  intros Hp Hv.
  assert (Hg : forall e, endpoint_of e = None -> p e = false).
  { intros e He. destruct (p e) eqn:Hpe; [|reflexivity].
    apply Hp in Hpe. congruence. }
  destruct (run_cases h eps argv0 args)
    as [[_ ->]|[[_ [o ->]]|[_ [o ->]]]]; cbn [fst snd trace].
  - rewrite count_none; [lia|]. cbn.
    repeat constructor; apply Hg; reflexivity.
  - rewrite count_none; [lia|]. unfold usage_trace.
    repeat constructor; apply Hg; reflexivity.
  - apply (mute_outcome_count_once p i); auto.
Qed.

Lemma sorted_constant k (l : list nat) :
  (forall x, x ∈ l -> x = k) -> StronglySorted le l.
Proof.
  induction l as [|y l IH]; intros H; constructor.
  - apply IH. intros x Hx. apply H. right. exact Hx.
  - apply Forall_forall. intros x Hx.
    rewrite (H y) by left. rewrite (H x) by (right; exact Hx). lia.
Qed.

Lemma walk_sorted o h eps : forall k,
  StronglySorted le (visited (fst (walk o h k eps))).
Proof.
  unfold visited. induction eps as [|e rest IH]; intros k.
  - constructor.
  - rewrite walk_cons. cbn [fst]. rewrite omap_app.
    assert (Hv : forall x, x ∈ omap endpoint_of (fst (visit o h k e)) -> x = k).
    { intros x Hx. apply list_elem_of_omap in Hx as (ev & Hin & Hev).
      apply list_elem_of_In in Hin.
      pose proof (visit_local o h k e) as Hl.
      rewrite List.Forall_forall in Hl. exact (Hl _ Hin _ Hev). }
    apply StronglySorted_app. split; [|split].
    + intros x1 x2 H1 H2. apply Hv in H1 as ->.
      apply list_elem_of_omap in H2 as (ev & Hin & Hev).
      apply list_elem_of_In in Hin.
      pose proof (walk_from _ _ _ _ _ _ Hin Hev). lia.
    + apply (sorted_constant k), Hv.
    + apply IH.
Qed.

Lemma visited_outs o msg : visited (error_lines o msg) = [].
Proof. unfold error_lines. destruct (silent o); reflexivity. Qed.

Lemma run_sorted h eps argv0 args :
  StronglySorted le (visited (trace (snd (run h eps argv0 args)))).
Proof.
  destruct (run_cases h eps argv0 args)
    as [[_ ->]|[[_ [o ->]]|[_ [o ->]]]]; cbn [fst snd trace].
  - unfold visited. cbn [omap list_omap endpoint_of].
    fold (visited (error_lines no_opts "Failed to initialize COM library")).
    rewrite visited_outs. constructor.
  - cbn. constructor.
  - unfold mute_outcome.
    destruct (enumerator_ok h); cbn [negb fst snd shutdown_after exit_of].
    2:{ unfold visited. cbn [omap list_omap endpoint_of app].
        rewrite omap_app. fold (visited (error_lines o
          "Failed to create instance of MMDeviceEnumerator")).
        rewrite visited_outs. constructor. }
    destruct (enum_ok h); cbn [negb fst snd shutdown_after exit_of].
    2:{ unfold visited. cbn [omap list_omap endpoint_of app].
        rewrite omap_app. fold (visited (error_lines o
          "Failed to enumerate all audio endpoints")).
        rewrite visited_outs. constructor. }
    destruct (count_ok h); cbn [negb fst snd shutdown_after exit_of].
    2:{ unfold visited. cbn [omap list_omap endpoint_of app].
        rewrite omap_app. fold (visited (error_lines o
          "Failed to get endpoint count")).
        rewrite visited_outs. constructor. }
    unfold visited. cbn [omap list_omap endpoint_of app].
    rewrite omap_app.
    replace (omap endpoint_of
               (shutdown_after (if existsb dies eps then None else Some true)))
      with (@nil nat) by (destruct (existsb dies eps); reflexivity).
    rewrite app_nil_r. apply walk_sorted.
Qed.

(** C9.  In every run and for every endpoint [i]: the trace holds at most
    one [GetMute] and at most one [SetMute] on [i]; and the calls made on
    endpoints come in the order of the endpoints -- of two such calls the
    later one is never on an earlier endpoint -- so once the loop has moved
    on, nothing is called through a handle of an endpoint it has left. *)
Theorem one_get_one_set_no_reuse h eps argv0 args :
  (forall i,
     count (is_get i) (trace (snd (run h eps argv0 args))) <= 1 /\
     count (is_set i) (trace (snd (run h eps argv0 args))) <= 1) /\
  (forall a e1 b e2 c i j,
     trace (snd (run h eps argv0 args)) = a ++ e1 :: b ++ e2 :: c ->
     endpoint_of e1 = Some i -> endpoint_of e2 = Some j -> i <= j).
Proof.
  split.
  - intros i. split.
    + apply (run_count_once _ i); [apply is_get_endpoint|].
      intros o k e. etransitivity; [|apply (visit_one_get o h k e)].
      apply count_le, is_get_is_get_any.
    + apply (run_count_once _ i); [apply is_set_endpoint|].
      intros o k e. etransitivity; [|apply (visit_one_set o h k e)].
      apply count_le, is_set_is_set_any.
  - intros a e1 b e2 c i j Htr H1 H2.
    pose proof (run_sorted h eps argv0 args) as Hs.
    rewrite Htr in Hs. unfold visited in Hs.
    rewrite omap_app in Hs. apply StronglySorted_app in Hs as (_ & _ & Hs).
    cbn [omap list_omap] in Hs. rewrite H1 in Hs.
    apply StronglySorted_inv in Hs as [_ Hs].
    rewrite omap_app in Hs. apply Forall_app in Hs as [_ Hs].
    cbn [omap list_omap] in Hs. rewrite H2 in Hs.
    apply Forall_cons in Hs as [Hs _]. exact Hs.
Qed.

Lemma one_get_one_set_no_reuse_witness :
  trace (snd (run good_host [healthy "Speakers" false; healthy "Headset" true]
                "mute.exe" ["-silent"]))
  = [EvCoInitializeEx true; EvCreateInstance true; EvEnumAudioEndpoints true;
     EvGetCount (Some 2); EvItem 0 true; EvOpenPropertyStore 0 true;
     EvGetValue 0 (Some "Speakers"); EvActivateSessionManager 0 true;
     EvGetAudioSessionControl 0 true; EvActivateEndpointVolume 0 true;
     EvGetMute 0 (Some false)]
    ++ EvSetMute 0 true true
    :: [EvOut stdout nl; EvItem 1 true; EvOpenPropertyStore 1 true;
        EvGetValue 1 (Some "Headset"); EvActivateSessionManager 1 true;
        EvGetAudioSessionControl 1 true; EvActivateEndpointVolume 1 true]
    ++ EvGetMute 1 (Some true) :: [EvOut stdout nl; EvCoUninitialize]
  /\ 0 <= 1.
Proof.
  assert (Htr :
    trace (snd (run good_host
                  [healthy "Speakers" false; healthy "Headset" true]
                  "mute.exe" ["-silent"]))
    = [EvCoInitializeEx true; EvCreateInstance true;
       EvEnumAudioEndpoints true; EvGetCount (Some 2); EvItem 0 true;
       EvOpenPropertyStore 0 true; EvGetValue 0 (Some "Speakers");
       EvActivateSessionManager 0 true; EvGetAudioSessionControl 0 true;
       EvActivateEndpointVolume 0 true; EvGetMute 0 (Some false)]
      ++ EvSetMute 0 true true
      :: [EvOut stdout nl; EvItem 1 true; EvOpenPropertyStore 1 true;
          EvGetValue 1 (Some "Headset"); EvActivateSessionManager 1 true;
          EvGetAudioSessionControl 1 true; EvActivateEndpointVolume 1 true]
      ++ EvGetMute 1 (Some true) :: [EvOut stdout nl; EvCoUninitialize])
    by (vm_compute; reflexivity).
  split; [exact Htr|].
  exact (proj2 (one_get_one_set_no_reuse good_host
                  [healthy "Speakers" false; healthy "Headset" true]
                  "mute.exe" ["-silent"])
           _ _ _ _ _ 0 1 Htr eq_refl eq_refl).
Defined.

(** ** The iteration of one endpoint inside a run *)

Lemma walk_split o h eps : forall k j e,
  eps !! j = Some e ->
  exists pre post,
    fst (walk o h k eps) = pre ++ fst (visit o h (k + j) e) ++ post
    /\ off_endpoint (k + j) pre /\ off_endpoint (k + j) post.
Proof.
  unfold off_endpoint.
  induction eps as [|e0 rest IH]; intros k j e Hj; [discriminate|].
  rewrite walk_cons. cbn [fst]. destruct j as [|j]; cbn in Hj.
  - injection Hj as ->. rewrite Nat.add_0_r.
    exists [], (fst (walk o h (S k) rest)). split; [reflexivity|].
    split; [constructor|]. apply List.Forall_forall. intros ev Hin Hev.
    pose proof (walk_from _ _ _ _ _ _ Hin Hev). lia.
  - destruct (IH (S k) j e Hj) as (pre & post & Heq & Hpre & Hpost).
    rewrite Nat.add_succ_r. cbn [Nat.add] in Heq, Hpre, Hpost.
    exists (fst (visit o h k e0) ++ pre), post. split; [|split].
    + rewrite Heq, <- app_assoc. reflexivity.
    + apply List.Forall_app. split; [|exact Hpre].
      apply List.Forall_forall. intros ev Hin Hev.
      pose proof (visit_local o h k e0) as Hl.
      rewrite List.Forall_forall in Hl. specialize (Hl _ Hin _ Hev). lia.
    + exact Hpost.
Qed.

Lemma reach_beyond eps : eps = reach eps ++ beyond eps.
Proof.
  induction eps as [|e rest IH]; [reflexivity|].
  cbn [reach beyond]. destruct (dies e); [reflexivity|].
  cbn [app]. rewrite <- IH. reflexivity.
Qed.

Lemma reach_lookup eps j e : reach eps !! j = Some e -> eps !! j = Some e.
Proof.
  intros H. rewrite (reach_beyond eps). apply lookup_app_l_Some. exact H.
Qed.

(** A call on endpoint [i] in the trace of a run belongs to the iteration
    of [i]: the run is that iteration between two stretches that make no
    call on [i], and it leaves on [i] what the iteration leaves. *)
Lemma run_on_endpoint h eps argv0 args ev i :
  In ev (trace (snd (run h eps argv0 args))) ->
  endpoint_of ev = Some i ->
  exists e pre post,
    eps !! i = Some e /\
    In ev (fst (visit (opts_ (snd (run h eps argv0 args))) h i e)) /\
    trace (snd (run h eps argv0 args))
    = pre ++ fst (visit (opts_ (snd (run h eps argv0 args))) h i e) ++ post /\
    off_endpoint i pre /\ off_endpoint i post /\
    endpoints (snd (run h eps argv0 args)) !! i
    = Some (snd (visit (opts_ (snd (run h eps argv0 args))) h i e)).
Proof.
  destruct (run_cases h eps argv0 args)
    as [[_ ->]|[[_ [o ->]]|[_ [o ->]]]];
    cbn [fst snd trace opts_ endpoints]; intros Hin Hev.
  - cbn in Hin. in_cases Hin; discriminate Hev.
  - unfold usage_trace in Hin. in_cases Hin; discriminate Hev.
  - revert Hin. unfold mute_outcome.
    destruct (enumerator_ok h); cbn [negb fst snd shutdown_after exit_of].
    2:{ unfold error_lines; destruct (silent o); intros Hin;
        in_cases Hin; discriminate Hev. }
    destruct (enum_ok h); cbn [negb fst snd shutdown_after exit_of].
    2:{ unfold error_lines; destruct (silent o); intros Hin;
        in_cases Hin; discriminate Hev. }
    destruct (count_ok h); cbn [negb fst snd shutdown_after exit_of].
    2:{ unfold error_lines; destruct (silent o); intros Hin;
        in_cases Hin; discriminate Hev. }
    intros Hin. cbn [app In] in Hin.
    destruct Hin as [<-|[<-|[<-|[<-|Hin]]]]; try discriminate Hev.
    apply in_app_iff in Hin as [Hin|Hin].
    2:{ destruct (existsb dies eps); cbn in Hin; in_cases Hin;
        discriminate Hev. }
    apply walk_In in Hin as (j & e & He & Hin). cbn [Nat.add] in Hin.
    pose proof (visit_local o h j e) as Hl.
    rewrite List.Forall_forall in Hl. specialize (Hl _ Hin _ Hev). subst j.
    destruct (walk_split o h (reach eps) 0 i e He)
      as (pre & post & Heq & Hpre & Hpost).
    cbn [Nat.add] in Heq, Hpre, Hpost.
    exists e, ([EvCoInitializeEx true; EvCreateInstance true;
                EvEnumAudioEndpoints true; EvGetCount (Some (length eps))]
               ++ pre),
      (post ++ shutdown_after (if existsb dies eps then None else Some true)).
    split; [exact (reach_lookup _ _ _ He)|]. split; [exact Hin|].
    split; [|split; [|split]].
    + rewrite Heq. cbn [app]. rewrite <- !app_assoc. reflexivity.
    + apply List.Forall_app. split; [|exact Hpre].
      repeat constructor; discriminate.
    + apply List.Forall_app. split; [exact Hpost|].
      destruct (existsb dies eps); repeat constructor; discriminate.
    + rewrite (lookup_app_l_Some _ _ _ (snd (visit o h i e)));
        [reflexivity|].
      rewrite walk_lookup, He. reflexivity.
Qed.

Lemma count_off_endpoint p i tr :
  (forall e, p e = true -> endpoint_of e = Some i) ->
  off_endpoint i tr -> count p tr = 0.
Proof.
  intros Hp Hoff. apply count_none. unfold off_endpoint in Hoff.
  rewrite List.Forall_forall in *. intros ev Hin.
  destruct (p ev) eqn:Hpe; [|reflexivity].
  destruct (Hoff _ Hin). apply Hp, Hpe.
Qed.

(** Counting calls on endpoint [i] over the run is counting them over the
    iteration of [i]. *)
Lemma count_in_iteration p i pre evs post :
  (forall e, p e = true -> endpoint_of e = Some i) ->
  off_endpoint i pre -> off_endpoint i post ->
  count p (pre ++ evs ++ post) = count p evs.
Proof.
  intros Hp Hpre Hpost. rewrite !count_app.
  rewrite (count_off_endpoint p i pre), (count_off_endpoint p i post) by auto.
  lia.
Qed.

(** ** The audio session steps *)




(** What decides the write: the flag read and the target, nothing else. *)
Lemma visit_decision o h i e j m :
  In (EvGetMute j (Some m)) (fst (visit o h i e)) ->
  count (is_set j) (fst (visit o h i e))
  = (if Bool.eqb m (target o) then 0 else 1) /\
  forall k flag ok,
    In (EvSetMute k flag ok) (fst (visit o h i e)) -> flag = target o.
Proof.
  visit_cases o e; cbn [In]; intros H;
    repeat (destruct H as [H|H];
            [try discriminate H; injection H as <- <-|]);
    try destruct H.
  all: split;
    [ cbv [count List.filter is_set length Bool.eqb negb];
      rewrite ?Nat.eqb_refl; reflexivity
    | intros k flag ok H;
      repeat (destruct H as [H|H];
              [try discriminate H; injection H as <- <- <-; reflexivity|]);
      destruct H ].
Qed.



(** ** Idempotence *)

Lemma visit_already o h i e j m :
  In (EvGetMute j (Some m)) (fst (visit o h i e)) ->
  m = target o ->
  snd (visit o h i e) = e /\
  exists name a,
    In (EvGetValue j (Some name)) a /\
    fst (visit o h i e)
    = a ++ EvGetMute j (Some m)
        :: print_lines o (already_msg o name) ++ [EvOut stdout nl].
Proof.
  visit_cases o e; cbn [In]; intros H Ht;
    repeat (destruct H as [H|H];
            [try discriminate H; injection H as <- <-|]);
    try destruct H; try discriminate Ht.
  all: split; [reflexivity|]; exists name;
    first [ eexists [_; _; _; _; _; _]; split; [|reflexivity]; cbn; tauto
          | eexists [_; _; _; _; _; _; _; _]; split; [|reflexivity];
            cbn; tauto ].
Qed.

Lemma visit_writes o h i e j m :
  In (EvGetMute j (Some m)) (fst (visit o h i e)) ->
  m <> target o ->
  exists ok a c,
    fst (visit o h i e)
    = a ++ EvGetMute j (Some m) :: EvSetMute j (target o) ok :: c.
Proof.
  visit_cases o e; cbn [In]; intros H Ht;
    repeat (destruct H as [H|H];
            [try discriminate H; injection H as <- <-|]);
    try destruct H; try (destruct Ht; reflexivity).
  all: eexists;
    first [ eexists [_; _; _; _; _; _]; eexists; reflexivity
          | eexists [_; _; _; _; _; _; _; _]; eexists; reflexivity ].
Qed.

(** After an iteration none of whose writes failed, the same iteration on
    the endpoint it left writes nothing and leaves it again. *)
Lemma visit_settled o h i e :
  all_sets_ok (fst (visit o h i e)) = true ->
  count is_set_any (fst (visit o h i (snd (visit o h i e)))) = 0 /\
  snd (visit o h i (snd (visit o h i e))) = snd (visit o h i e).
Proof.
  visit_cases o e; intros H; try discriminate H; split; reflexivity.
Qed.

Lemma all_sets_ok_app a b :
  all_sets_ok (a ++ b) = all_sets_ok a && all_sets_ok b.
Proof. apply forallb_app. Qed.

Lemma walk_settled o h eps : forall k,
  all_sets_ok (fst (walk o h k eps)) = true ->
  count is_set_any (fst (walk o h k (snd (walk o h k eps)))) = 0 /\
  snd (walk o h k (snd (walk o h k eps))) = snd (walk o h k eps).
Proof.
  induction eps as [|e rest IH]; intros k; [split; reflexivity|].
  rewrite walk_cons. cbn [fst snd]. rewrite all_sets_ok_app.
  intros H. apply andb_prop in H as [Hv Hw].
  apply visit_settled in Hv as [Hv1 Hv2]. apply IH in Hw as [Hw1 Hw2].
  rewrite walk_cons. cbn [fst snd]. rewrite count_app, Hv1, Hw1, Hv2, Hw2.
  split; reflexivity.
Qed.

Lemma visit_dies o h i e : dies (snd (visit o h i e)) = dies e.
Proof. unfold dies. visit_cases o e; reflexivity. Qed.

(** The endpoints a walk leaves are reached and left out as those it
    started from. *)
Lemma walk_reach o h eps : forall k,
  reach (snd (walk o h k (reach eps)) ++ beyond eps)
  = snd (walk o h k (reach eps))
  /\ beyond (snd (walk o h k (reach eps)) ++ beyond eps) = beyond eps
  /\ existsb dies (snd (walk o h k (reach eps)) ++ beyond eps)
     = existsb dies eps.
Proof.
  induction eps as [|e rest IH]; intros k; [repeat split|].
  cbn [reach beyond existsb]. destruct (dies e) eqn:Hd.
  - rewrite walk_cons. cbn [walk fst snd app reach beyond existsb].
    rewrite visit_dies, Hd. repeat split.
  - rewrite walk_cons. cbn [fst snd app reach beyond existsb].
    rewrite visit_dies, Hd. destruct (IH (S k)) as (-> & -> & ->).
    repeat split.
Qed.

Lemma rerun_settled h eps argv0 args :
  all_sets_ok (trace (snd (run h eps argv0 args))) = true ->
  count is_set_any (trace (snd (rerun h eps argv0 args))) = 0 /\
  endpoints (snd (rerun h eps argv0 args))
  = endpoints (snd (run h eps argv0 args)).
Proof.
  unfold rerun. rewrite !run_outcome. unfold outcome.
  destruct (com_ok h); cbn [negb]; [|intros _; split; reflexivity].
  destruct (DisplayUsage _ _); [intros _; split; reflexivity|].
  destruct (fst (parse_opts no_opts args)); cbn [negb];
    [|intros _; split; reflexivity].
  set (o := snd (parse_opts no_opts args)).
  unfold mute_outcome.
  destruct (enumerator_ok h); cbn [negb fst snd endpoints trace].
  2:{ intros _. split; [|reflexivity].
      unfold error_lines; destruct (silent o); reflexivity. }
  destruct (enum_ok h); cbn [negb fst snd endpoints trace].
  2:{ intros _. split; [|reflexivity].
      unfold error_lines; destruct (silent o); reflexivity. }
  destruct (count_ok h); cbn [negb fst snd endpoints trace].
  2:{ intros _. split; [|reflexivity].
      unfold error_lines; destruct (silent o); reflexivity. }
  destruct (walk_reach o h eps 0) as (-> & -> & ->).
  intros H.
  change (EvCoInitializeEx true
          :: (EvCreateInstance true :: EvEnumAudioEndpoints true
              :: ?c :: ?l) ++ ?r)
    with ([EvCoInitializeEx true; EvCreateInstance true;
           EvEnumAudioEndpoints true; c] ++ l ++ r) in H.
  rewrite !all_sets_ok_app in H.
  apply andb_prop in H as [_ H]. apply andb_prop in H as [H _].
  apply walk_settled in H as [Hc He]. split; [|rewrite He; reflexivity].
  change (EvCoInitializeEx true
          :: (EvCreateInstance true :: EvEnumAudioEndpoints true
              :: ?c :: ?l) ++ ?r)
    with ([EvCoInitializeEx true; EvCreateInstance true;
           EvEnumAudioEndpoints true; c] ++ l ++ r).
  rewrite !count_app, Hc.
  destruct (existsb dies eps); reflexivity.
Qed.

(** C1, as amended.  In every run, for every endpoint [i] whose mute flag
    was read:
    - when the flag read equals the target, no [SetMute] is made on [i],
      the endpoint is left as it was, and the read is followed by the
      [Print] of the "already muted"/"already unmuted" message for the
      name resolved for [i] (nothing when silenced) and by the newline that
      closes the iteration;
    - when it differs, the read is followed by a [SetMute] of the target.
    A second run with the same command line, from the endpoints the first
    one left, makes no [SetMute] at all and leaves them again -- provided
    no [SetMute] of the first run failed. *)
Theorem already_in_state_is_not_written h eps argv0 args :
  (forall i m,
     In (EvGetMute i (Some m)) (trace (snd (run h eps argv0 args))) ->
     (m = target (opts_ (snd (run h eps argv0 args))) ->
      count (is_set i) (trace (snd (run h eps argv0 args))) = 0 /\
      endpoints (snd (run h eps argv0 args)) !! i = eps !! i /\
      exists name a c,
        In (EvGetValue i (Some name)) a /\
        trace (snd (run h eps argv0 args))
        = a ++ EvGetMute i (Some m)
            :: print_lines (opts_ (snd (run h eps argv0 args)))
                 (already_msg (opts_ (snd (run h eps argv0 args))) name)
            ++ EvOut stdout nl :: c) /\
     (m <> target (opts_ (snd (run h eps argv0 args))) ->
      exists ok a c,
        trace (snd (run h eps argv0 args))
        = a ++ EvGetMute i (Some m)
            :: EvSetMute i (target (opts_ (snd (run h eps argv0 args)))) ok
            :: c)) /\
  (all_sets_ok (trace (snd (run h eps argv0 args))) = true ->
   count is_set_any (trace (snd (rerun h eps argv0 args))) = 0 /\
   endpoints (snd (rerun h eps argv0 args))
   = endpoints (snd (run h eps argv0 args))).
Proof.
  split; [|apply rerun_settled].
  intros i m Hin.
  destruct (run_on_endpoint h eps argv0 args _ i Hin eq_refl)
    as (e & pre & post & He & Hv & Htr & Hpre & Hpost & Hend).
  split.
  - intros Ht.
    destruct (visit_decision _ _ _ _ _ _ Hv) as [Hcount _].
    destruct (visit_already _ _ _ _ _ _ Hv Ht)
      as (Hsame & name & a & Hname & Hshape).
    split; [|split].
    + rewrite Htr at 1.
      rewrite (count_in_iteration _ i) by (auto using is_set_endpoint).
      rewrite Hcount, Ht. destruct (target _); reflexivity.
    + rewrite Hend, Hsame, He. reflexivity.
    + exists name, (pre ++ a), post. split; [apply in_app_iff; auto|].
      rewrite Htr at 1. rewrite Hshape, <- !app_assoc. cbn [app].
      rewrite <- !app_assoc. reflexivity.
  - intros Ht.
    destruct (visit_writes _ _ _ _ _ _ Hv Ht) as (ok & a & c & Hshape).
    exists ok, (pre ++ a), (c ++ post).
    rewrite Htr at 1. rewrite Hshape, <- !app_assoc. reflexivity.
Qed.

Lemma already_in_state_is_not_written_witness :
  count is_set_any
    (trace (snd (rerun good_host
                   [healthy "Speakers" false; healthy "Headset" true]
                   "mute.exe" [])))
  = 0 /\
  endpoints (snd (rerun good_host
                    [healthy "Speakers" false; healthy "Headset" true]
                    "mute.exe" []))
  = endpoints (snd (run good_host
                      [healthy "Speakers" false; healthy "Headset" true]
                      "mute.exe" [])).
Proof.
  apply (proj2 (already_in_state_is_not_written good_host
                  [healthy "Speakers" false; healthy "Headset" true]
                  "mute.exe" [])).
  reflexivity.
Defined.

(** C1 as stated fails: an endpoint that refuses the write is left as it
    was by the first run, and the second run, with the same command line
    and the same device state, calls [SetMute] on it again. *)
Lemma locked_endpoint_is_written_again :
  endpoints (snd (run good_host [locked "Speakers" false] "mute.exe" []))
  = [locked "Speakers" false]
  /\ count is_set_any
       (trace (snd (rerun good_host [locked "Speakers" false] "mute.exe" [])))
     = 1.
Proof. split; reflexivity. Qed.

(** * Further properties of the code *)

(** ** The command line, further *)

Lemma parse_opts_flags args : forall o,
  forallb recognized args = true ->
  snd (parse_opts o args)
  = {| silent := silent o || existsb is_silent_arg args;
       unmute := unmute o || existsb is_unmute_arg args |}.
Proof.
  induction args as [|a args IH]; intros [s u] Hall.
  - cbn. rewrite !orb_false_r. reflexivity.
  - cbn [forallb] in Hall. apply andb_prop in Hall as [Ha Hall].
    cbn [parse_opts existsb]. unfold recognized in Ha.
    unfold is_silent_arg at 1, is_unmute_arg at 1.
    destruct (_strcmpi a "-silent" =? 0)%Z; cbn [negb andb orb] in *.
    + rewrite IH by exact Hall. cbn [silent unmute].
      rewrite orb_true_r. reflexivity.
    + rewrite Ha. rewrite IH by exact Hall. cbn [silent unmute].
      rewrite orb_true_r. reflexivity.
Qed.

Lemma existsb_Permutation {A} (p : A -> bool) l l' :
  Permutation l l' -> existsb p l = existsb p l'.
Proof.
  induction 1 as [|x l l' _ IH|x y l|l l' l'' _ IH1 _ IH2]; cbn.
  - reflexivity.
  - rewrite IH. reflexivity.
  - destruct (p x), (p y); reflexivity.
  - congruence.
Qed.

Lemma forallb_Permutation {A} (p : A -> bool) l l' :
  Permutation l l' -> forallb p l = forallb p l'.
Proof.
  induction 1 as [|x l l' _ IH|x y l|l l' l'' _ IH1 _ IH2]; cbn.
  - reflexivity.
  - rewrite IH. reflexivity.
  - destruct (p x), (p y); reflexivity.
  - congruence.
Qed.

Lemma ParseCommandLine_run argv0 args w :
  ParseCommandLine (S (length args)) (argv0 :: args) w
  = (Some (fst (parse_opts (opts_ w) args)),
     {| opts_ := snd (parse_opts (opts_ w) args);
        programName_ := programName_ w; host := host w;
        endpoints := endpoints w; trace := trace w |}).
Proof.
  unfold ParseCommandLine.
  rewrite firstn_all2 by (simpl; lia). simpl (drop _ _). rewrite drop_0.
  apply ParseCommandLine_loop_run.
Qed.

(** X1.  On a command line whose arguments are all recognized,
    [ParseCommandLine] returns true and leaves in [opts_] each flag set
    when it was set before or some argument names it, whatever the case of
    the letters, the order of the arguments and the number of times a flag
    is given: two command lines that are permutations of each other leave
    the same world. *)
Theorem ParseCommandLine_order_and_repeats argv0 args args' w :
  forallb recognized args = true ->
  Permutation args args' ->
  ParseCommandLine (S (length args)) (argv0 :: args) w
  = (Some true,
     {| opts_ := {| silent := silent (opts_ w) || existsb is_silent_arg args;
                    unmute := unmute (opts_ w) || existsb is_unmute_arg args |};
        programName_ := programName_ w; host := host w;
        endpoints := endpoints w; trace := trace w |})
  /\ ParseCommandLine (S (length args')) (argv0 :: args') w
     = ParseCommandLine (S (length args)) (argv0 :: args) w.
Proof.
  intros Hall Hperm.
  assert (Hall' : forallb recognized args' = true)
    by (rewrite <- (forallb_Permutation _ _ _ Hperm); exact Hall).
  rewrite !ParseCommandLine_run, !parse_opts_accepts, Hall, Hall'.
  rewrite !parse_opts_flags by assumption.
  rewrite <- !(existsb_Permutation _ _ _ Hperm). split; reflexivity.
Qed.

Lemma ParseCommandLine_order_and_repeats_witness :
  ParseCommandLine 4 ["mute.exe"; "-UNMUTE"; "-silent"; "-Unmute"]
    (boot good_host [])
  = (Some true,
     {| opts_ :=
          {| silent := silent (opts_ (boot good_host []))
                       || existsb is_silent_arg
                            ["-UNMUTE"; "-silent"; "-Unmute"];
             unmute := unmute (opts_ (boot good_host []))
                       || existsb is_unmute_arg
                            ["-UNMUTE"; "-silent"; "-Unmute"] |};
        programName_ := programName_ (boot good_host []);
        host := host (boot good_host []);
        endpoints := endpoints (boot good_host []);
        trace := trace (boot good_host []) |})
  /\ ParseCommandLine 4 ["mute.exe"; "-silent"; "-Unmute"; "-UNMUTE"]
       (boot good_host [])
     = ParseCommandLine 4 ["mute.exe"; "-UNMUTE"; "-silent"; "-Unmute"]
         (boot good_host []).
Proof.
  apply (ParseCommandLine_order_and_repeats "mute.exe"
           ["-UNMUTE"; "-silent"; "-Unmute"]
           ["-silent"; "-Unmute"; "-UNMUTE"] (boot good_host [])).
  - vm_compute. reflexivity.
  - apply Permutation_cons_append.
Defined.

Lemma parse_opts_accepted args : forall o,
  snd (parse_opts o args) = flags_after o (accepted args).
Proof.
  induction args as [|a args IH]; intros [s u].
  - unfold flags_after. cbn. rewrite !orb_false_r. reflexivity.
  - cbn [parse_opts accepted]. unfold recognized.
    destruct (_strcmpi a "-silent" =? 0)%Z eqn:Hs; cbn [orb].
    + rewrite IH. unfold flags_after. cbn [silent unmute existsb].
      unfold is_silent_arg, is_unmute_arg. rewrite Hs.
      cbn [negb andb orb]. rewrite orb_true_r. reflexivity.
    + destruct (_strcmpi a "-unmute" =? 0)%Z eqn:Hu.
      * rewrite IH. unfold flags_after. cbn [silent unmute existsb].
        unfold is_silent_arg, is_unmute_arg. rewrite Hs, Hu.
        cbn [negb andb orb]. rewrite orb_true_r. reflexivity.
      * unfold flags_after. cbn. rewrite !orb_false_r. reflexivity.
Qed.

(** X2.  On every command line, [ParseCommandLine] returns true exactly
    when every argument after [argv[0]] is [-silent] or [-unmute] up to
    the case of the letters; it writes nothing and calls nothing (the
    trace is unchanged) and touches neither the program name nor the
    endpoints; and it leaves each flag set exactly when it was set before
    or one of the arguments before the first unrecognized one names it:
    what those arguments set stays set although it returns false, nothing
    is ever cleared, and the arguments after the unrecognized one are not
    read. *)
Theorem ParseCommandLine_stops_at_the_first_rejection argv0 args w :
  ParseCommandLine (S (length args)) (argv0 :: args) w
  = (Some (forallb recognized args),
     {| opts_ := flags_after (opts_ w) (accepted args);
        programName_ := programName_ w; host := host w;
        endpoints := endpoints w; trace := trace w |}).
Proof.
  rewrite ParseCommandLine_run, parse_opts_accepts, parse_opts_accepted.
  reflexivity.
Qed.

(** ** The program name *)

Lemma strrchr_split c s : forall t,
  strrchr s c = Some t ->
  exists pre rest,
    s = (pre ++ t)%string /\ t = String c rest /\ strrchr rest c = None.
Proof.
  induction s as [|a s IH]; intros t H; [discriminate|].
  cbn [strrchr] in H. destruct (strrchr s c) as [t'|] eqn:Hs.
  - injection H as <-. destruct (IH t' eq_refl) as (pre & rest & -> & -> & Hr).
    exists (String a pre), rest. repeat split. exact Hr.
  - destruct (Ascii.eqb_spec a c) as [->|_]; [|discriminate].
    injection H as <-. exists ""%string, s. repeat split. exact Hs.
Qed.

Lemma Init_programName argv0 args w :
  programName_ (snd (Init (S (length args)) (argv0 :: args) w))
  = program_name argv0.
Proof.
  unfold Init, CoInitializeEx. unfold_M. cbn [lookup list_lookup default].
  fold (program_name argv0). cbn [host].
  destruct (com_ok (host w)); cbn [negb]; [reflexivity|].
  rewrite PrintError_run. reflexivity.
Qed.

(** X3.  Whatever [argv[0]] is, the program name [Init] stores holds no
    backslash, and [argv[0]] is that name preceded by nothing or by a
    directory part that ends with a backslash. *)
Theorem Init_strips_the_directory argv0 args w :
  no_backslash (programName_ (snd (Init (S (length args)) (argv0 :: args) w)))
  /\ exists dir,
       argv0
       = (dir ++ programName_ (snd (Init (S (length args)) (argv0 :: args) w)))
           %string
       /\ (dir = ""%string
           \/ exists d, dir = (d ++ String backslash "")%string).
Proof.
  rewrite Init_programName. unfold program_name, no_backslash.
  destruct (strrchr argv0 backslash) as [t|] eqn:Hs.
  - destruct (strrchr_split _ _ _ Hs) as (pre & rest & -> & -> & Hr).
    split; [exact Hr|].
    exists (pre ++ String backslash "")%string. split.
    + clear. induction pre as [|a pre IH]; cbn; [reflexivity|].
      rewrite <- IH. reflexivity.
    + right. exists pre. reflexivity.
  - split; [exact Hs|]. exists ""%string. split; [reflexivity|left; reflexivity].
Qed.

(** ** What a run leaves behind *)

Lemma visit_settles o h i e : snd (visit o h i e) = settled o e.
Proof.
  unfold settled, all_ok. visit_cases o e; reflexivity.
Qed.

Lemma walk_settles o h eps : forall k,
  snd (walk o h k eps) = map (settled o) eps.
Proof.
  induction eps as [|e rest IH]; intros k; [reflexivity|].
  rewrite walk_cons. cbn [snd map]. rewrite visit_settles, IH. reflexivity.
Qed.

Lemma reach_all eps :
  existsb dies eps = false -> reach eps = eps /\ beyond eps = [].
Proof.
  induction eps as [|e rest IH]; [split; reflexivity|].
  cbn [existsb reach beyond]. destruct (dies e); [discriminate|].
  intros H. destruct (IH H) as [-> ->]. split; reflexivity.
Qed.

(** The process dies in an iteration exactly when [GetValue] succeeds
    there with an empty value. *)
Lemma visit_empty o h k e i :
  In (EvGetValueEmpty i) (fst (visit o h k e)) -> dies e = true.
Proof.
  unfold dies. visit_cases o e; cbn [In]; intros H; in_cases H; reflexivity.
Qed.

Lemma visit_of_dying o h k e :
  dies e = true -> In (EvGetValueEmpty k) (fst (visit o h k e)).
Proof.
  unfold dies. visit_cases o e; cbn; intros H; try discriminate H; tauto.
Qed.

Lemma reach_dies eps :
  existsb dies eps = true ->
  exists j e, reach eps !! j = Some e /\ dies e = true.
Proof.
  induction eps as [|e rest IH]; [discriminate|].
  cbn [existsb reach]. destruct (dies e) eqn:Hd.
  - intros _. exists 0, e. split; [reflexivity|exact Hd].
  - intros H. destruct (IH H) as (j & e' & Hj & He').
    exists (S j), e'. split; [exact Hj|exact He'].
Qed.

(** A run returns 0 after a walk through all the endpoints, or the process
    dies in the walk, or the run returns 1 without having called anything
    on any endpoint. *)
Lemma run_trichotomy h eps argv0 args :
  (exists o,
     run h eps argv0 args
     = (Some EXIT_SUCCESS,
        {| opts_ := o; programName_ := program_name argv0; host := h;
           endpoints := snd (walk o h 0 eps);
           trace := EvCoInitializeEx true :: EvCreateInstance true
                    :: EvEnumAudioEndpoints true
                    :: EvGetCount (Some (length eps))
                    :: fst (walk o h 0 eps) ++ [EvCoUninitialize] |})
     /\ com_ok h = true /\ existsb dies eps = false)
  \/ (exists o,
        run h eps argv0 args
        = (None,
           {| opts_ := o; programName_ := program_name argv0; host := h;
              endpoints := snd (walk o h 0 (reach eps)) ++ beyond eps;
              trace := EvCoInitializeEx true :: EvCreateInstance true
                       :: EvEnumAudioEndpoints true
                       :: EvGetCount (Some (length eps))
                       :: fst (walk o h 0 (reach eps)) |})
        /\ com_ok h = true /\ existsb dies eps = true)
  \/ (fst (run h eps argv0 args) = Some EXIT_FAILURE
      /\ endpoints (snd (run h eps argv0 args)) = eps
      /\ (forall ev, In ev (trace (snd (run h eps argv0 args))) ->
          endpoint_of ev = None
          /\ (forall n, ev <> EvGetCount (Some n))
          /\ (is_com ev = true ->
              ev = EvCoInitializeEx (com_ok h)
              \/ (ev = EvCoUninitialize /\ com_ok h = true)))
      /\ exists body,
           trace (snd (run h eps argv0 args))
           = EvCoInitializeEx (com_ok h) :: body
             ++ (if com_ok h then [EvCoUninitialize] else [])
           /\ List.Forall (fun ev => is_com ev = false) body).
Proof.
  destruct (run_cases h eps argv0 args)
    as [[Hc ->]|[[Hc [o ->]]|[Hc [o ->]]]]; rewrite Hc;
    cbn [fst snd trace endpoints].
  - right. right. split; [reflexivity|]. split; [reflexivity|]. split.
    + cbn. intros ev H. in_cases H; cbn; repeat split; auto; discriminate.
    + eexists. split; [rewrite app_nil_r; reflexivity|].
      cbn. repeat constructor.
  - right. right. split; [reflexivity|]. split; [reflexivity|]. split.
    + unfold usage_trace. intros ev H.
      in_cases H; cbn; repeat split; auto; discriminate.
    + exists [EvOut stdout (usage_text (program_name argv0))].
      split; [reflexivity|]. repeat constructor.
  - unfold mute_outcome.
    destruct (enumerator_ok h); cbn [negb fst snd shutdown_after exit_of].
    2:{ right. right. split; [reflexivity|]. split; [reflexivity|]. split.
        - unfold error_lines. destruct (silent o); intros ev H;
            in_cases H; cbn; repeat split; auto; discriminate.
        - eexists. split; [reflexivity|].
          unfold error_lines. destruct (silent o); repeat constructor. }
    destruct (enum_ok h); cbn [negb fst snd shutdown_after exit_of].
    2:{ right. right. split; [reflexivity|]. split; [reflexivity|]. split.
        - unfold error_lines. destruct (silent o); intros ev H;
            in_cases H; cbn; repeat split; auto; discriminate.
        - eexists. split; [reflexivity|].
          unfold error_lines. destruct (silent o); repeat constructor. }
    destruct (count_ok h); cbn [negb fst snd shutdown_after exit_of].
    2:{ right. right. split; [reflexivity|]. split; [reflexivity|]. split.
        - unfold error_lines. destruct (silent o); intros ev H;
            in_cases H; cbn; repeat split; auto; discriminate.
        - eexists. split; [reflexivity|].
          unfold error_lines. destruct (silent o); repeat constructor. }
    destruct (existsb dies eps) eqn:Hd; cbn [shutdown_after exit_of].
    + right. left. exists o. rewrite app_nil_r. repeat split.
    + left. exists o. destruct (reach_all eps Hd) as [-> ->].
      rewrite app_nil_r. repeat split.
Qed.

Lemma run_endpoints h eps argv0 args :
  endpoints (snd (run h eps argv0 args))
  = match fst (run h eps argv0 args) with
    | Some rc =>
        if (rc =? EXIT_SUCCESS)%Z
        then map (settled (opts_ (snd (run h eps argv0 args)))) eps
        else eps
    | None =>
        map (settled (opts_ (snd (run h eps argv0 args)))) (reach eps)
        ++ beyond eps
    end.
Proof.
  destruct (run_trichotomy h eps argv0 args)
    as [(o & -> & _)|[(o & -> & _)|(Hrc & Hend & _)]].
  - cbn [fst snd endpoints opts_]. rewrite walk_settles. reflexivity.
  - cbn [fst snd endpoints opts_]. rewrite walk_settles. reflexivity.
  - rewrite Hrc, Hend. reflexivity.
Qed.

(** X4.  What a run leaves of the endpoints.  When it returns 0, every
    endpoint on which all the calls of the loop body succeed has its mute
    flag at the target, and every other endpoint is exactly as it was;
    when it returns anything else, every endpoint is as it was; when the
    process dies in the loop, the same holds of the endpoints the loop got
    to, and the others are as they were.  No run adds, drops or reorders
    endpoints, or changes anything but a mute flag. *)
Theorem run_settles_the_endpoints h eps argv0 args :
  endpoints (snd (run h eps argv0 args))
  = match fst (run h eps argv0 args) with
    | Some rc =>
        if (rc =? EXIT_SUCCESS)%Z
        then map (settled (opts_ (snd (run h eps argv0 args)))) eps
        else eps
    | None =>
        map (settled (opts_ (snd (run h eps argv0 args)))) (reach eps)
        ++ beyond eps
    end.
Proof. apply run_endpoints. Qed.

(** X5.  A run returns 0, or returns 1, or the process dies.  It dies
    exactly when some [GetValue] succeeded with an empty value, and it
    returns 0 exactly when the endpoint-count query succeeded and no
    [GetValue] did so: no call that fails on an endpoint enters into the
    exit code. *)
Theorem exit_code_reports_enumeration h eps argv0 args :
  (fst (run h eps argv0 args) = Some EXIT_SUCCESS
   \/ fst (run h eps argv0 args) = Some EXIT_FAILURE
   \/ fst (run h eps argv0 args) = None)
  /\ (fst (run h eps argv0 args) = None <->
      exists i, In (EvGetValueEmpty i) (trace (snd (run h eps argv0 args))))
  /\ (fst (run h eps argv0 args) = Some EXIT_SUCCESS <->
      (exists n, In (EvGetCount (Some n)) (trace (snd (run h eps argv0 args))))
      /\ forall i,
           ~ In (EvGetValueEmpty i) (trace (snd (run h eps argv0 args)))).
Proof.
  destruct (run_trichotomy h eps argv0 args)
    as [(o & -> & _ & Hd)|[(o & -> & _ & Hd)|(Hrc & _ & Hev & _)]].
  - cbn [fst snd trace].
    assert (Hno : forall i,
              ~ In (EvGetValueEmpty i)
                  (EvCoInitializeEx true :: EvCreateInstance true
                   :: EvEnumAudioEndpoints true
                   :: EvGetCount (Some (length eps))
                   :: fst (walk o h 0 eps) ++ [EvCoUninitialize])).
    { intros i Hin. cbn [In] in Hin.
      destruct Hin as [H|[H|[H|[H|Hin]]]]; try discriminate H.
      apply in_app_iff in Hin as [Hin|Hin]; [|in_cases Hin].
      apply walk_In in Hin as (j & e & He & Hin).
      apply visit_empty in Hin.
      assert (Hex : existsb dies eps = true).
      { apply existsb_exists. exists e. split; [|exact Hin].
        apply list_elem_of_In, list_elem_of_lookup. eauto. }
      congruence. }
    split; [left; reflexivity|]. split; [|split].
    + split; [discriminate|]. intros (i & Hin). destruct (Hno i Hin).
    + intros _. split; [|exact Hno].
      exists (length eps). right. right. right. left. reflexivity.
    + reflexivity.
  - cbn [fst snd trace]. split; [right; right; reflexivity|].
    assert (Hin : exists i,
              In (EvGetValueEmpty i)
                 (EvCoInitializeEx true :: EvCreateInstance true
                  :: EvEnumAudioEndpoints true
                  :: EvGetCount (Some (length eps))
                  :: fst (walk o h 0 (reach eps)))).
    { destruct (reach_dies eps Hd) as (j & e & Hj & He).
      exists j. right. right. right. right.
      apply walk_In. exists j, e. split; [exact Hj|].
      apply visit_of_dying. exact He. }
    split; [|split].
    + split; [intros _; exact Hin|reflexivity].
    + discriminate.
    + intros (_ & Hno). destruct Hin as (i & Hin). destruct (Hno i Hin).
  - rewrite Hrc. split; [right; left; reflexivity|]. split; [|split].
    + split; [discriminate|]. intros (i & Hin).
      destruct (Hev _ Hin) as (He & _). discriminate He.
    + discriminate.
    + intros ((n & Hin) & _). destruct (Hev _ Hin) as (_ & Hn & _).
      destruct (Hn n). reflexivity.
Qed.

(** ** COM is released, and the loop stays in range *)

Lemma walk_no_com o h eps k :
  List.Forall (fun ev => is_com ev = false) (fst (walk o h k eps)).
Proof.
  apply List.Forall_forall. intros ev Hin.
  apply walk_per_endpoint in Hin as [H|(j & H)]; destruct ev;
    try discriminate; reflexivity.
Qed.

(** X6.  Every run starts with the COM initialisation and makes it once.
    When it succeeded and [main] returns, the run ends with the one
    [CoUninitialize] that [Shutdown] makes, on every such path: usage
    screen, fatal failure in [Mute], completed walk.  When it failed, and
    when the process dies in the loop, [CoUninitialize] is never called. *)
Theorem com_is_initialised_once_and_released h eps argv0 args :
  exists body,
    trace (snd (run h eps argv0 args))
    = EvCoInitializeEx (com_ok h) :: body
      ++ match fst (run h eps argv0 args) with
         | Some _ => if com_ok h then [EvCoUninitialize] else []
         | None => []
         end
    /\ List.Forall (fun ev => is_com ev = false) body.
Proof.
  destruct (run_trichotomy h eps argv0 args)
    as [(o & -> & -> & _)|[(o & -> & -> & _)|(Hrc & _ & _ & Hbody)]].
  - cbn [fst snd trace].
    exists (EvCreateInstance true :: EvEnumAudioEndpoints true
            :: EvGetCount (Some (length eps)) :: fst (walk o h 0 eps)).
    split; [reflexivity|]. repeat constructor. apply walk_no_com.
  - cbn [fst snd trace].
    exists (EvCreateInstance true :: EvEnumAudioEndpoints true
            :: EvGetCount (Some (length eps))
            :: fst (walk o h 0 (reach eps))).
    split; [rewrite app_nil_r; reflexivity|].
    repeat constructor. apply walk_no_com.
  - rewrite Hrc. exact Hbody.
Qed.

Lemma omap_none {A B} (f : A -> option B) (l : list A) :
  (forall x, In x l -> f x = None) -> omap f l = [].
Proof.
  induction l as [|x l IH]; intros H; [reflexivity|].
  cbn [omap list_omap]. rewrite (H x) by (left; reflexivity).
  apply IH. intros y Hy. apply H. right. exact Hy.
Qed.

Lemma visit_one_item o h i e : omap item_index (fst (visit o h i e)) = [i].
Proof. visit_cases o e; reflexivity. Qed.

Lemma walk_items o h eps : forall k,
  omap item_index (fst (walk o h k eps)) = seq k (length eps).
Proof.
  induction eps as [|e rest IH]; intros k; [reflexivity|].
  rewrite walk_cons. cbn [fst length seq].
  rewrite omap_app, visit_one_item, IH. reflexivity.
Qed.

(** X7.  The indices [Item] is called with, in the order of the calls,
    are 0, 1, ..., count-1 when the run returns 0, each exactly once
    and none at or beyond the count; a run that returns anything else
    never calls [Item]; and when the process dies in the loop they are the
    indices of the endpoints the loop got to. *)
Theorem items_are_the_indices_below_the_count h eps argv0 args :
  omap item_index (trace (snd (run h eps argv0 args)))
  = match fst (run h eps argv0 args) with
    | Some rc => if (rc =? EXIT_SUCCESS)%Z then seq 0 (length eps) else []
    | None => seq 0 (length (reach eps))
    end.
Proof.
  destruct (run_trichotomy h eps argv0 args)
    as [(o & -> & _)|[(o & -> & _)|(Hrc & _ & Hev & _)]].
  - cbn [fst snd trace].
    change (EvCoInitializeEx true :: EvCreateInstance true
            :: EvEnumAudioEndpoints true :: EvGetCount (Some (length eps))
            :: fst (walk o h 0 eps) ++ [EvCoUninitialize])
      with ([EvCoInitializeEx true; EvCreateInstance true;
             EvEnumAudioEndpoints true; EvGetCount (Some (length eps))]
            ++ fst (walk o h 0 eps) ++ [EvCoUninitialize]).
    rewrite !omap_app, walk_items. cbn [omap list_omap item_index app].
    rewrite app_nil_r. reflexivity.
  - cbn [fst snd trace].
    change (EvCoInitializeEx true :: EvCreateInstance true
            :: EvEnumAudioEndpoints true :: EvGetCount (Some (length eps))
            :: fst (walk o h 0 (reach eps)))
      with ([EvCoInitializeEx true; EvCreateInstance true;
             EvEnumAudioEndpoints true; EvGetCount (Some (length eps))]
            ++ fst (walk o h 0 (reach eps))).
    rewrite !omap_app, walk_items. reflexivity.
  - rewrite Hrc. cbn. apply omap_none. intros ev Hin.
    destruct (Hev _ Hin) as (He & _). destruct ev; try reflexivity.
    discriminate He.
Qed.

(** ** A help request is not an accepted command line *)

Lemma strcmp_cons_inv x c r :
  strcmp x (String c r) = 0%Z -> c <> Ascii.zero ->
  exists x', x = String c x' /\ strcmp x' r = 0%Z.
Proof.
  destruct x as [|a x']; cbn [strcmp]; intros H Hc.
  - destruct Hc. rewrite <- (ascii_nat_embedding c).
    replace (nat_of_ascii c) with 0%nat by lia. reflexivity.
  - destruct (Ascii.eqb_spec a c) as [->|Hne]; [eauto|].
    destruct Hne. rewrite <- (ascii_nat_embedding a), <- (ascii_nat_embedding c).
    f_equal. lia.
Qed.

Lemma help_is_not_recognized a :
  _strcmpi a "-help" = 0%Z \/ strcmp a "-?" = 0%Z -> recognized a = false.
Proof.
  unfold recognized, _strcmpi. intros [H|H].
  - apply strcmp_cons_inv in H as (x1 & -> & H); [|discriminate].
    apply strcmp_cons_inv in H as (x2 & -> & _); [|discriminate].
    reflexivity.
  - apply strcmp_cons_inv in H as (x1 & -> & H); [|discriminate].
    apply strcmp_cons_inv in H as (x2 & -> & _); [|discriminate].
    reflexivity.
Qed.

Lemma DisplayUsage_not_recognized argv0 args :
  DisplayUsage (S (length args)) (argv0 :: args) = true ->
  forallb recognized args = false.
Proof.
  unfold DisplayUsage. destruct args as [|a [|b args]]; try discriminate.
  cbn. intros H. apply orb_prop in H.
  rewrite help_is_not_recognized; [reflexivity|].
  destruct H as [H|H]; [left|right]; apply Z.eqb_eq; exact H.
Qed.

(** The usage screen, or the walk: decided by the arguments alone. *)
Lemma outcome_by_arguments h eps argv0 args :
  com_ok h = true ->
  run h eps argv0 args
  = if forallb recognized args then
      let o := snd (parse_opts no_opts args) in
      (exit_of (fst (mute_outcome o h eps)),
       {| opts_ := o; programName_ := program_name argv0; host := h;
          endpoints := snd (snd (mute_outcome o h eps));
          trace := EvCoInitializeEx true
                   :: fst (snd (mute_outcome o h eps))
                   ++ shutdown_after (fst (mute_outcome o h eps)) |})
    else
      (Some EXIT_FAILURE,
       {| opts_ := if DisplayUsage (S (length args)) (argv0 :: args)
                   then no_opts else snd (parse_opts no_opts args);
          programName_ := program_name argv0; host := h; endpoints := eps;
          trace := usage_trace argv0 |}).
Proof.
  intros Hc. rewrite run_outcome. unfold outcome. rewrite Hc. cbn [negb].
  destruct (DisplayUsage _ _) eqn:Hd.
  - rewrite (DisplayUsage_not_recognized _ _ Hd). reflexivity.
  - rewrite parse_opts_accepts.
    destruct (forallb recognized args); reflexivity.
Qed.

(** X8.  When COM initialisation succeeds, the usage screen is what the
    run shows exactly when some argument is neither [-silent] nor
    [-unmute] (up to case): [-help] and [-?] are such arguments
    themselves, so [DisplayUsage] never decides between usage and walk. *)
Theorem usage_iff_some_argument_unrecognized h eps argv0 args :
  com_ok h = true ->
  (trace (snd (run h eps argv0 args)) = usage_trace argv0
   <-> forallb recognized args = false).
Proof.
  intros Hc. rewrite (outcome_by_arguments _ _ _ _ Hc).
  destruct (forallb recognized args); cbn [snd trace]; split;
    try reflexivity; try discriminate.
  unfold usage_trace, mute_outcome.
  destruct (enumerator_ok h), (enum_ok h), (count_ok h); discriminate.
Qed.

Lemma usage_iff_some_argument_unrecognized_witness :
  trace (snd (run good_host [healthy "Speakers" false] "mute.exe"
                ["-silent"; "-help"]))
  = usage_trace "mute.exe"
  <-> forallb recognized ["-silent"; "-help"] = false.
Proof.
  apply (usage_iff_some_argument_unrecognized good_host
           [healthy "Speakers" false] "mute.exe" ["-silent"; "-help"]).
  reflexivity.
Defined.

(** ** Silencing changes the output only *)

Lemma calls_app a b : calls (a ++ b) = calls a ++ calls b.
Proof. apply List.filter_app. Qed.

Lemma visit_hush o h i e :
  calls (fst (visit (hush o) h i e)) = calls (fst (visit o h i e))
  /\ snd (visit (hush o) h i e) = snd (visit o h i e).
Proof. unfold hush. visit_cases o e; split; reflexivity. Qed.

Lemma walk_hush o h eps : forall k,
  calls (fst (walk (hush o) h k eps)) = calls (fst (walk o h k eps))
  /\ snd (walk (hush o) h k eps) = snd (walk o h k eps).
Proof.
  induction eps as [|e rest IH]; intros k; [split; reflexivity|].
  rewrite !walk_cons. cbn [fst snd]. rewrite !calls_app.
  destruct (visit_hush o h k e) as [-> ->].
  destruct (IH (S k)) as [-> ->]. split; reflexivity.
Qed.

Lemma mute_outcome_hush o h eps :
  fst (mute_outcome (hush o) h eps) = fst (mute_outcome o h eps)
  /\ calls (fst (snd (mute_outcome (hush o) h eps)))
     = calls (fst (snd (mute_outcome o h eps)))
  /\ snd (snd (mute_outcome (hush o) h eps))
     = snd (snd (mute_outcome o h eps)).
Proof.
  unfold mute_outcome.
  destruct (enumerator_ok h); cbn [negb fst snd shutdown_after exit_of].
  2:{ unfold error_lines, hush. cbn. destruct (silent o); repeat split. }
  destruct (enum_ok h); cbn [negb fst snd shutdown_after exit_of].
  2:{ unfold error_lines, hush. cbn. destruct (silent o); repeat split. }
  destruct (count_ok h); cbn [negb fst snd shutdown_after exit_of].
  2:{ unfold error_lines, hush. cbn. destruct (silent o); repeat split. }
  destruct (walk_hush o h (reach eps) 0) as [Hc He]. split; [reflexivity|].
  split; [|rewrite He; reflexivity].
  change (EvCreateInstance true :: EvEnumAudioEndpoints true
          :: EvGetCount (Some (length eps)) :: ?l)
    with ([EvCreateInstance true; EvEnumAudioEndpoints true;
           EvGetCount (Some (length eps))] ++ l).
  rewrite !calls_app, Hc. reflexivity.
Qed.

Lemma parse_opts_with_silent pre s post :
  forallb recognized (pre ++ post) = true -> is_silent_arg s = true ->
  forallb recognized (pre ++ s :: post) = true
  /\ snd (parse_opts no_opts (pre ++ s :: post))
     = hush (snd (parse_opts no_opts (pre ++ post))).
Proof.
  intros Hall Hs.
  assert (Hrs : recognized s = true)
    by (unfold recognized; unfold is_silent_arg in Hs; rewrite Hs; reflexivity).
  assert (Hall' : forallb recognized (pre ++ s :: post) = true).
  { rewrite forallb_app in *. cbn [forallb]. rewrite Hrs.
    apply andb_prop in Hall as [-> ->]. reflexivity. }
  split; [exact Hall'|].
  rewrite !parse_opts_flags by assumption. unfold hush. cbn [silent unmute].
  rewrite !existsb_app. cbn [existsb]. rewrite Hs.
  unfold is_unmute_arg at 2. unfold is_silent_arg in Hs. rewrite Hs.
  cbn [negb andb orb]. rewrite orb_true_r. reflexivity.
Qed.

(** X9.  Adding [-silent] (in any case, at any place) to a command line
    changes nothing but what is written: the exit code, the calls made on
    the host, in order and with their outcomes, and the endpoints left
    behind are those of the run without it. *)
Theorem silent_changes_only_the_output h eps argv0 pre s post :
  is_silent_arg s = true ->
  fst (run h eps argv0 (pre ++ s :: post)) = fst (run h eps argv0 (pre ++ post))
  /\ calls (trace (snd (run h eps argv0 (pre ++ s :: post))))
     = calls (trace (snd (run h eps argv0 (pre ++ post))))
  /\ endpoints (snd (run h eps argv0 (pre ++ s :: post)))
     = endpoints (snd (run h eps argv0 (pre ++ post))).
Proof.
  intros Hs. destruct (com_ok h) eqn:Hc.
  2:{ rewrite !run_outcome. unfold outcome. rewrite Hc. repeat split. }
  rewrite !(outcome_by_arguments _ _ _ _ Hc).
  destruct (forallb recognized (pre ++ post)) eqn:Hall.
  - destruct (parse_opts_with_silent pre s post Hall Hs) as [-> ->].
    cbn zeta. cbn [fst snd trace endpoints].
    destruct (mute_outcome_hush (snd (parse_opts no_opts (pre ++ post))) h eps)
      as (-> & Hcalls & ->).
    split; [reflexivity|]. split; [|reflexivity].
    change (EvCoInitializeEx true :: ?l ++ ?r)
      with ([EvCoInitializeEx true] ++ l ++ r).
    rewrite !calls_app, Hcalls. reflexivity.
  - assert (Hall' : forallb recognized (pre ++ s :: post) = false).
    { rewrite forallb_app in *. cbn [forallb].
      apply andb_false_iff in Hall as [->| ->];
        rewrite ?andb_false_r; reflexivity. }
    rewrite Hall'. repeat split.
Qed.

Lemma silent_changes_only_the_output_witness :
  fst (run good_host [locked "Speakers" false; healthy "Headset" false]
         "mute.exe" (["-unmute"] ++ "-SILENT" :: []))
  = fst (run good_host [locked "Speakers" false; healthy "Headset" false]
           "mute.exe" (["-unmute"] ++ []))
  /\ calls (trace (snd (run good_host
                          [locked "Speakers" false; healthy "Headset" false]
                          "mute.exe" (["-unmute"] ++ "-SILENT" :: []))))
     = calls (trace (snd (run good_host
                            [locked "Speakers" false; healthy "Headset" false]
                            "mute.exe" (["-unmute"] ++ []))))
  /\ endpoints (snd (run good_host
                       [locked "Speakers" false; healthy "Headset" false]
                       "mute.exe" (["-unmute"] ++ "-SILENT" :: [])))
     = endpoints (snd (run good_host
                         [locked "Speakers" false; healthy "Headset" false]
                         "mute.exe" (["-unmute"] ++ []))).
Proof.
  apply (silent_changes_only_the_output good_host
           [locked "Speakers" false; healthy "Headset" false] "mute.exe"
           ["-unmute"] "-SILENT" []).
  reflexivity.
Defined.

(** ** Diagnostics and failures *)

Lemma append_assoc (a b c : string) :
  ((a ++ b) ++ c)%string = (a ++ (b ++ c))%string.
Proof. induction a as [|x a IH]; cbn; [|rewrite IH]; reflexivity. Qed.

Lemma append_empty (a b : string) :
  (a ++ b)%string = ""%string <-> a = ""%string /\ b = ""%string.
Proof.
  destruct a; cbn; split; try tauto; try discriminate.
  intros [H _]. discriminate H.
Qed.

Lemma written_app s a b :
  written s (a ++ b) = (written s a ++ written s b)%string.
Proof.
  induction a as [|e a IH]; [reflexivity|].
  destruct e; cbn [app written]; try exact IH.
  destruct s0, s; rewrite ?IH, ?append_assoc; reflexivity.
Qed.

Lemma visit_stderr o h i e :
  silent o = false ->
  (written stderr (fst (visit o h i e)) = ""%string
   <-> existsb is_failure (fst (visit o h i e)) = false).
Proof.
  intros Hs. visit_cases o e; try discriminate Hs;
    cbn; split; intros H; try reflexivity; discriminate H.
Qed.

Lemma walk_stderr o h eps : forall k,
  silent o = false ->
  (written stderr (fst (walk o h k eps)) = ""%string
   <-> existsb is_failure (fst (walk o h k eps)) = false).
Proof.
  induction eps as [|e rest IH]; intros k Hs; [split; reflexivity|].
  rewrite walk_cons. cbn [fst].
  rewrite written_app, existsb_app, append_empty, orb_false_iff.
  rewrite (visit_stderr o h k e Hs), (IH (S k) Hs). reflexivity.
Qed.

(** X10.  In a run that ends with [opts_.silent] unset, standard error is
    empty exactly when no call failed: every failed call, fatal or on an
    endpoint, puts a diagnostic there, and nothing else does. *)
Theorem stderr_is_empty_iff_nothing_failed h eps argv0 args :
  silent (opts_ (snd (run h eps argv0 args))) = false ->
  (written stderr (trace (snd (run h eps argv0 args))) = ""%string
   <-> existsb is_failure (trace (snd (run h eps argv0 args))) = false).
Proof.
  destruct (run_cases h eps argv0 args)
    as [[_ ->]|[[_ [o ->]]|[_ [o ->]]]]; cbn [fst snd trace opts_].
  - intros _. cbn. split; discriminate.
  - intros _. cbn. split; reflexivity.
  - intros Hs. unfold mute_outcome, error_lines. rewrite Hs.
    destruct (enumerator_ok h); cbn [negb fst snd shutdown_after exit_of].
    2:{ cbn. split; discriminate. }
    destruct (enum_ok h); cbn [negb fst snd shutdown_after exit_of].
    2:{ cbn. split; discriminate. }
    destruct (count_ok h); cbn [negb fst snd shutdown_after exit_of].
    2:{ cbn. split; discriminate. }
    cbn [written app existsb is_failure negb orb].
    rewrite written_app, existsb_app, append_empty, orb_false_iff.
    rewrite (walk_stderr o h (reach eps) 0 Hs).
    destruct (existsb dies eps); cbn; tauto.
Qed.

Lemma stderr_is_empty_iff_nothing_failed_witness :
  written stderr
    (trace (snd (run good_host [healthy "Speakers" false; unreachable]
                   "mute.exe" ["-unmute"])))
  = ""%string
  <-> existsb is_failure
        (trace (snd (run good_host [healthy "Speakers" false; unreachable]
                       "mute.exe" ["-unmute"])))
      = false.
Proof.
  apply (stderr_is_empty_iff_nothing_failed good_host
           [healthy "Speakers" false; unreachable] "mute.exe" ["-unmute"]).
  vm_compute. reflexivity.
Defined.

(** ** What a silenced run still writes *)

Lemma visit_silenced o h i e :
  silent o = true ->
  written stderr (fst (visit o h i e)) = ""%string
  /\ written stdout (fst (visit o h i e))
     = newlines (count is_acquired (fst (visit o h i e))).
Proof.
  intros Hs. visit_cases o e; try discriminate Hs; split; reflexivity.
Qed.

Lemma newlines_add a b :
  newlines (a + b) = (newlines a ++ newlines b)%string.
Proof.
  induction a as [|a IH]; [reflexivity|].
  cbn [Nat.add newlines]. rewrite IH, append_assoc. reflexivity.
Qed.

Lemma walk_silenced o h eps : forall k,
  silent o = true ->
  written stderr (fst (walk o h k eps)) = ""%string
  /\ written stdout (fst (walk o h k eps))
     = newlines (count is_acquired (fst (walk o h k eps))).
Proof.
  induction eps as [|e rest IH]; intros k Hs; [split; reflexivity|].
  rewrite walk_cons. cbn [fst]. rewrite !written_app, count_app, newlines_add.
  destruct (visit_silenced o h k e Hs) as [-> ->].
  destruct (IH (S k) Hs) as [-> ->]. split; reflexivity.
Qed.

(** X11.  In a run that ends with [opts_.silent] set, nothing is written
    to standard error, and standard output receives the usage text when
    some argument is not recognized, and otherwise one newline for every
    endpoint whose mute-control handle was acquired -- the newline that
    closes such an iteration -- and nothing else. *)
Theorem silenced_run_output h eps argv0 args :
  silent (opts_ (snd (run h eps argv0 args))) = true ->
  written stderr (trace (snd (run h eps argv0 args))) = ""%string
  /\ written stdout (trace (snd (run h eps argv0 args)))
     = if forallb recognized args
       then newlines (count is_acquired (trace (snd (run h eps argv0 args))))
       else usage_text (program_name argv0).
Proof.
  destruct (com_ok h) eqn:Hc.
  2:{ rewrite run_outcome. unfold outcome. rewrite Hc. discriminate. }
  rewrite (outcome_by_arguments _ _ _ _ Hc).
  destruct (forallb recognized args); cbn zeta; cbn [fst snd trace opts_].
  2:{ intros _. split; [reflexivity|]. cbn. apply append_empty_r. }
  intros Hs. unfold mute_outcome, error_lines. rewrite Hs.
  destruct (enumerator_ok h); cbn [negb fst snd]; [|split; reflexivity].
  destruct (enum_ok h); cbn [negb fst snd]; [|split; reflexivity].
  destruct (count_ok h); cbn [negb fst snd]; [|split; reflexivity].
  destruct (walk_silenced (snd (parse_opts no_opts args)) h (reach eps) 0 Hs)
    as [He Ho].
  change (EvCoInitializeEx true
          :: (EvCreateInstance true :: EvEnumAudioEndpoints true
              :: ?c :: ?l) ++ ?r)
    with ([EvCoInitializeEx true; EvCreateInstance true;
           EvEnumAudioEndpoints true; c] ++ l ++ r).
  rewrite !written_app, !count_app, He, Ho.
  destruct (existsb dies eps); cbn;
    rewrite Nat.add_0_r, !append_empty_r; split; reflexivity.
Qed.

Lemma silenced_run_output_witness :
  written stderr
    (trace (snd (run good_host
                   [healthy "Speakers" false; unreachable;
                    locked "Headset" false] "mute.exe" ["-silent"])))
  = ""%string
  /\ written stdout
       (trace (snd (run good_host
                      [healthy "Speakers" false; unreachable;
                       locked "Headset" false] "mute.exe" ["-silent"])))
     = if forallb recognized ["-silent"]
       then newlines
              (count is_acquired
                 (trace (snd (run good_host
                                [healthy "Speakers" false; unreachable;
                                 locked "Headset" false] "mute.exe"
                                ["-silent"]))))
       else usage_text (program_name "mute.exe").
Proof.
  apply (silenced_run_output good_host
           [healthy "Speakers" false; unreachable; locked "Headset" false]
           "mute.exe" ["-silent"]).
  vm_compute. reflexivity.
Defined.

(** ** Runs in sequence *)

Lemma settled_settled o1 o2 e : settled o2 (settled o1 e) = settled o2 e.
Proof.
  unfold settled, all_ok.
  destruct e as [[] [] [] [n|] [] [] [] [] [] m]; reflexivity.
Qed.

Lemma settled_dies o e : dies (settled o e) = dies e.
Proof.
  unfold settled, all_ok, dies.
  destruct e as [[] [] [] [n|] [] [] [] [] [] m]; reflexivity.
Qed.

Lemma settled_all_dies o eps :
  existsb dies (map (settled o) eps) = existsb dies eps.
Proof.
  induction eps as [|e rest IH]; [reflexivity|].
  cbn [map existsb]. rewrite settled_dies, IH. reflexivity.
Qed.

(** The endpoints enter into the exit code and the options only by
    whether the process dies on one of them. *)
Lemma run_apart_from_endpoints h eps eps' argv0 args :
  existsb dies eps = existsb dies eps' ->
  fst (run h eps argv0 args) = fst (run h eps' argv0 args)
  /\ opts_ (snd (run h eps argv0 args)) = opts_ (snd (run h eps' argv0 args)).
Proof.
  intros Hd. rewrite !run_outcome. unfold outcome.
  destruct (com_ok h); cbn [negb]; [|split; reflexivity].
  destruct (DisplayUsage _ _); [split; reflexivity|].
  destruct (fst (parse_opts no_opts args)); cbn [negb]; [|split; reflexivity].
  unfold mute_outcome. rewrite Hd.
  destruct (enumerator_ok h), (enum_ok h), (count_ok h); split; reflexivity.
Qed.

(** X12.  Of two runs in a row on the same host, a second run that exits
    with 0 alone decides what is left of the endpoints: whatever the
    command line of the first and whatever it changed, the endpoints after
    the second are those the second would leave when run first.  In
    particular muting and then unmuting leaves every endpoint on which all
    calls succeed unmuted, whether or not it was muted to begin with. *)
Theorem last_run_decides_the_endpoints h eps argv0 args1 args2 :
  fst (run h eps argv0 args2) = Some EXIT_SUCCESS ->
  endpoints
    (snd (run h (endpoints (snd (run h eps argv0 args1))) argv0 args2))
  = endpoints (snd (run h eps argv0 args2)).
Proof.
  intros Hrc.
  assert (Hd : existsb dies eps = false).
  { destruct (run_trichotomy h eps argv0 args2)
      as [(_ & _ & _ & Hd)|[(o & Hr & _)|(Hr & _)]]; [exact Hd| |];
      rewrite Hr in Hrc; discriminate Hrc. }
  assert (H1 : endpoints (snd (run h eps argv0 args1)) = eps
               \/ exists o1, endpoints (snd (run h eps argv0 args1))
                             = map (settled o1) eps).
  { destruct (run_trichotomy h eps argv0 args1)
      as [(o & -> & _)|[(_ & _ & _ & Hd')|(_ & He & _)]].
    - right. exists o. cbn [snd endpoints]. apply walk_settles.
    - congruence.
    - left. exact He. }
  assert (Hd1 : existsb dies (endpoints (snd (run h eps argv0 args1)))
                = existsb dies eps).
  { destruct H1 as [->|(o1 & ->)]; [reflexivity|apply settled_all_dies]. }
  rewrite (run_endpoints h (endpoints _)), (run_endpoints h eps argv0 args2).
  destruct (run_apart_from_endpoints h
              (endpoints (snd (run h eps argv0 args1))) eps argv0 args2 Hd1)
    as [-> ->].
  rewrite Hrc. cbn [Z.eqb EXIT_SUCCESS].
  destruct H1 as [->|(o1 & ->)]; [reflexivity|].
  rewrite map_map. apply map_ext. intros e. apply settled_settled.
Qed.

Lemma last_run_decides_the_endpoints_witness :
  endpoints
    (snd (run good_host
            (endpoints
               (snd (run good_host
                       [healthy "Speakers" true; healthy "Headset" false]
                       "mute.exe" [])))
            "mute.exe" ["-unmute"]))
  = endpoints (snd (run good_host
                      [healthy "Speakers" true; healthy "Headset" false]
                      "mute.exe" ["-unmute"])).
Proof.
  apply (last_run_decides_the_endpoints good_host
           [healthy "Speakers" true; healthy "Headset" false] "mute.exe"
           [] ["-unmute"]).
  vm_compute. reflexivity.
Defined.
